(** * arXiv digest: cutoff, ledger, selection and packing

    A shallow embedding of the core of the arXiv-to-Discord digest job
    ([src/state.py], [src/util.py], [src/filter_rank.py], [src/main.py])
    and the properties of its specification that can be settled on it. *)

From stdpp Require Import gmap strings list fin_maps sorting.
From Stdlib Require Import ZArith Lia.

Local Open Scope Z_scope.

(** ** Time

    An aware UTC [datetime] is a point of the UTC time line, counted in
    microseconds (the resolution of Python's [datetime]); a [timedelta] is a
    signed number of microseconds.  Subtraction of two datetimes and of a
    timedelta from a datetime are exact in Python, so they are [Z.sub]; the
    time line of the model is not cut at the years 1 and 9999. *)

Module Time.

Definition datetime := Z.
Definition timedelta := Z.

Definition microseconds_per_hour : Z := 3600 * 1000000.

(** [timedelta(hours=h)] *)
Definition timedelta_hours (h : Z) : timedelta := h * microseconds_per_hour.

(** [timedelta(days=d)] *)
Definition timedelta_days (d : Z) : timedelta := timedelta_hours (24 * d).

(** [timedelta(0)] *)
Definition timedelta_zero : timedelta := 0.

(** [src/state.py], [compute_cutoff_utc]. *)
Definition compute_cutoff_utc
    (now_utc : datetime) (last_success_utc : option datetime)
    (lookback_hours : Z) : datetime :=
  let lookback_delta := timedelta_hours (Z.max lookback_hours 1) in
  match last_success_utc with
  | None => now_utc - lookback_delta
  | Some last =>
      let elapsed := now_utc - last in
      let elapsed := if elapsed <? timedelta_zero then timedelta_zero else elapsed in
      let safe_window := Z.max lookback_delta elapsed in
      now_utc - safe_window
  end.

(** The two cutoffs of [run] and the one handed to the selector
    ([src/main.py], lines 208-210). *)
Definition candidate_cutoff_utc
    (now_utc : datetime) (last_success_utc : option datetime)
    (lookback_hours recent_window_days : Z) : datetime :=
  let state_cutoff_utc := compute_cutoff_utc now_utc last_success_utc lookback_hours in
  let recent_cutoff_utc := now_utc - timedelta_days recent_window_days in
  Z.min state_cutoff_utc recent_cutoff_utc.

Example cutoff_first_run :
  compute_cutoff_utc (timedelta_hours 100) None 36 = timedelta_hours 64.
Proof. reflexivity. Qed.

Example cutoff_catch_up :
  compute_cutoff_utc (timedelta_hours 100) (Some (timedelta_hours 10)) 36
  = timedelta_hours 10.
Proof. reflexivity. Qed.

Example cutoff_clock_skew :
  compute_cutoff_utc (timedelta_hours 100) (Some (timedelta_hours 120)) 0
  = timedelta_hours 99.
Proof. reflexivity. Qed.

Lemma timedelta_hours_mono h1 h2 :
  h1 <= h2 -> timedelta_hours h1 <= timedelta_hours h2.
Proof. unfold timedelta_hours, microseconds_per_hour. lia. Qed.

(** The clamped lookback is never shorter than one hour. *)
Lemma lookback_clamped lookback_hours :
  timedelta_hours 1 <= timedelta_hours (Z.max lookback_hours 1).
Proof. apply timedelta_hours_mono. lia. Qed.

Lemma compute_cutoff_utc_absent now lookback_hours :
  compute_cutoff_utc now None lookback_hours
  = now - timedelta_hours (Z.max 1 lookback_hours).
Proof. unfold compute_cutoff_utc. by rewrite Z.max_comm. Qed.

Lemma compute_cutoff_utc_present now last lookback_hours :
  compute_cutoff_utc now (Some last) lookback_hours
  = now - Z.max (timedelta_hours (Z.max 1 lookback_hours)) (Z.max 0 (now - last)).
Proof.
  unfold compute_cutoff_utc, timedelta_zero.
  rewrite (Z.max_comm lookback_hours 1).
  destruct (Z.ltb_spec (now - last) 0); f_equal; lia.
Qed.

(** Clamping the hours clamps the duration. *)
Lemma timedelta_hours_max h1 h2 :
  timedelta_hours (Z.max h1 h2) = Z.max (timedelta_hours h1) (timedelta_hours h2).
Proof.
  destruct (Z.le_ge_cases h1 h2) as [H|H].
  - rewrite !Z.max_r; [done | by apply timedelta_hours_mono | done].
  - rewrite !Z.max_l; [done | by apply timedelta_hours_mono | done].
Qed.

(** C1. Let [lookback] be the configured lookback clamped to a minimum of
    one hour, [max(1h, lookback_hours h)].  Without a last success the
    cutoff is [now - lookback]; with one, it is
    [now - max(lookback, max(0, now - last_success))], which is
    [now - elapsed] when [elapsed > lookback] and [now - lookback] when
    [0 <= elapsed <= lookback]. *)
Theorem compute_cutoff_utc_contract :
  forall (now : datetime) (last_success : option datetime) (lookback_hours : Z),
    let lookback := Z.max (timedelta_hours 1) (timedelta_hours lookback_hours) in
    let cutoff := compute_cutoff_utc now last_success lookback_hours in
    match last_success with
    | None => cutoff = now - lookback
    | Some last =>
        let elapsed := now - last in
        cutoff = now - Z.max lookback (Z.max 0 elapsed) /\
        (lookback < elapsed -> cutoff = now - elapsed) /\
        (0 <= elapsed <= lookback -> cutoff = now - lookback)
    end.
Proof.
  intros now last_success lookback_hours lookback cutoff.
  subst cutoff lookback. rewrite <- timedelta_hours_max.
  destruct last_success as [last|]; cbv zeta.
  - rewrite compute_cutoff_utc_present.
    pose proof (lookback_clamped lookback_hours) as Hclamp.
    rewrite (Z.max_comm lookback_hours 1) in Hclamp.
    assert (0 < timedelta_hours 1) by reflexivity.
    repeat split; intros; f_equal; lia.
  - apply compute_cutoff_utc_absent.
Qed.

(** The cutoff handed to the selector is the earlier of the two cutoffs. *)
Lemma candidate_cutoff_utc_earliest now last_success lookback_hours recent_window_days :
  let cutoff := candidate_cutoff_utc now last_success lookback_hours recent_window_days in
  cutoff <= compute_cutoff_utc now last_success lookback_hours /\
  cutoff <= now - timedelta_days recent_window_days /\
  (cutoff = compute_cutoff_utc now last_success lookback_hours \/
   cutoff = now - timedelta_days recent_window_days).
Proof. unfold candidate_cutoff_utc. cbv zeta. lia. Qed.

End Time.

(** ** Python strings

    A [str] is a sequence of Unicode code points.  The character classes are
    those of CPython: [is_space] is [str.isspace] on one character (what
    [strip], [lstrip] and [rstrip] remove), [is_linebreak] the line
    boundaries of [str.splitlines]. *)

Module PyStr.

Definition char := N.
Abbreviation str := (list char).

Definition is_space (c : char) : bool :=
  ((9 <=? c) && (c <=? 13) || (28 <=? c) && (c <=? 32) || (c =? 133)
   || (c =? 160) || (c =? 5760) || (8192 <=? c) && (c <=? 8202)
   || (c =? 8232) || (c =? 8233) || (c =? 8239) || (c =? 8287)
   || (c =? 12288))%N.

Definition is_linebreak (c : char) : bool :=
  ((10 <=? c) && (c <=? 13) || (28 <=? c) && (c <=? 30) || (c =? 133)
   || (c =? 8232) || (c =? 8233))%N.

Definition space : char := 32%N.
Definition LF : char := 10%N.
Definition CR : char := 13%N.

(** A string literal of ASCII characters as a [str]. *)
Fixpoint str_of_string (s : string) : str :=
  match s with
  | EmptyString => []
  | String a rest => Ascii.N_of_ascii a :: str_of_string rest
  end.

(** [len(s)] *)
Definition len (s : str) : Z := Z.of_nat (length s).

(** [not s] *)
Definition is_empty (s : str) : bool :=
  match s with [] => true | _ => false end.

Fixpoint lstrip (s : str) : str :=
  match s with
  | [] => []
  | c :: rest => if is_space c then lstrip rest else s
  end.

Definition rstrip (s : str) : str := reverse (lstrip (reverse s)).

Definition strip (s : str) : str := rstrip (lstrip s).

(** A slice bound [i] of a sequence of length [n], as Python reads it: a
    negative bound counts from the end, and bounds are clipped to
    [0 .. n]. *)
Definition clip {A} (s : list A) (i : Z) : nat :=
  let n := Z.of_nat (length s) in
  Z.to_nat (if i <? 0 then Z.max 0 (n + i) else Z.min i n).

(** [s[:j]], [s[i:]] and [s[i:j]] *)
Definition slice_to {A} (s : list A) (j : Z) : list A := take (clip s j) s.
Definition slice_from {A} (s : list A) (i : Z) : list A := drop (clip s i) s.
Definition slice {A} (s : list A) (i j : Z) : list A :=
  take (clip s j - clip s i) (drop (clip s i) s).

(** The highest index of [c] in [s], counted from [i], or [found]. *)
Fixpoint last_index (c : char) (s : str) (i found : Z) : Z :=
  match s with
  | [] => found
  | x :: rest => last_index c rest (i + 1) (if (x =? c)%N then i else found)
  end.

(** [s.rfind(c, 0, stop)] for a one-character needle. *)
Definition rfind (c : char) (s : str) (stop : Z) : Z :=
  last_index c (slice_to s stop) 0 (-1).

(** [s.splitlines()]: [line] is the current line, read so far, in
    reverse. *)
Fixpoint splitlines_from (line : str) (s : str) : list str :=
  match s with
  | [] => if is_empty line then [] else [reverse line]
  | c :: rest =>
      if is_linebreak c then
        match rest with
        | c' :: rest' =>
            if (c =? CR)%N && (c' =? LF)%N
            then reverse line :: splitlines_from [] rest'
            else reverse line :: splitlines_from [] rest
        | [] => [reverse line]
        end
      else splitlines_from (c :: line) rest
  end.

Definition splitlines (s : str) : list str := splitlines_from [] s.

(** [range(0, stop, step)] for [0 <= stop]; [None] is the [ValueError] of
    a zero step. *)
Definition range0 (stop step : Z) : option (list Z) :=
  if step =? 0 then None
  else if step <? 0 then Some []
  else Some ((fun k : nat => Z.of_nat k * step) <$> seq 0 (Z.to_nat ((stop + step - 1) / step))).

(** *** Facts on the string operations *)

(** The content of a string: its characters that are not white space, in
    order. *)
Definition content (s : str) : str := filter (fun c => is_space c = false) s.

Lemma linebreak_is_space c : is_linebreak c = true -> is_space c = true.
Proof.
  unfold is_linebreak, is_space.
  rewrite !orb_true_iff, !andb_true_iff, !N.leb_le, !N.eqb_eq. lia.
Qed.

Lemma space_is_space : is_space space = true.
Proof. reflexivity. Qed.

Lemma content_nil : content [] = [].
Proof. reflexivity. Qed.

Lemma content_app s t : content (s ++ t) = content s ++ content t.
Proof. apply filter_app. Qed.

Lemma content_cons_space c s : is_space c = true -> content (c :: s) = content s.
Proof. intros H. unfold content. rewrite filter_cons_False; [done | congruence]. Qed.

Lemma content_reverse s : content (reverse s) = reverse (content s).
Proof. apply filter_reverse. Qed.

Lemma content_lstrip s : content (lstrip s) = content s.
Proof.
  induction s as [|c s IH]; [done|]. simpl.
  destruct (is_space c) eqn:Hc; [|done].
  by rewrite content_cons_space.
Qed.

Lemma content_rstrip s : content (rstrip s) = content s.
Proof.
  unfold rstrip.
  by rewrite content_reverse, content_lstrip, content_reverse, reverse_involutive.
Qed.

Lemma content_strip s : content (strip s) = content s.
Proof. unfold strip. by rewrite content_rstrip, content_lstrip. Qed.

Lemma content_separator_free s : Forall (fun c => is_space c = true) s -> content s = [].
Proof.
  induction 1 as [|c s Hc _ IH]; [done|]. by rewrite content_cons_space.
Qed.

Lemma length_lstrip s : (length (lstrip s) <= length s)%nat.
Proof.
  induction s as [|c s IH]; simpl; [done|].
  destruct (is_space c); simpl; lia.
Qed.

Lemma length_rstrip s : (length (rstrip s) <= length s)%nat.
Proof.
  unfold rstrip. rewrite length_reverse.
  etrans; [apply length_lstrip|]. by rewrite length_reverse.
Qed.

Lemma is_empty_true (s : str) : is_empty s = true <-> s = [].
Proof. by destruct s. Qed.

Lemma is_empty_false (s : str) : is_empty s = false <-> s <> [].
Proof. by destruct s. Qed.

Lemma len_nonneg (s : str) : 0 <= len s.
Proof. unfold len. lia. Qed.

Lemma len_app (s t : str) : len (s ++ t) = len s + len t.
Proof. unfold len. rewrite length_app. lia. Qed.

(** Slices with bounds inside the sequence are [take] and [drop]. *)
Lemma slice_to_take {A} (s : list A) (j : Z) :
  0 <= j -> slice_to s j = take (Z.to_nat j) s.
Proof.
  intros Hj. unfold slice_to, clip.
  destruct (Z.ltb_spec j 0); [lia|].
  destruct (Z.le_gt_cases j (Z.of_nat (length s))).
  - by rewrite Z.min_l.
  - rewrite Z.min_r, Nat2Z.id, take_ge by lia. rewrite take_ge; [done | lia].
Qed.

Lemma slice_from_drop {A} (s : list A) (i : Z) :
  0 <= i -> slice_from s i = drop (Z.to_nat i) s.
Proof.
  intros Hi. unfold slice_from, clip.
  destruct (Z.ltb_spec i 0); [lia|].
  destruct (Z.le_gt_cases i (Z.of_nat (length s))).
  - by rewrite Z.min_l.
  - rewrite Z.min_r, Nat2Z.id, drop_ge by lia. rewrite drop_ge; [done | lia].
Qed.

Lemma slice_take_drop {A} (s : list A) (i j : Z) :
  0 <= i <= j ->
  slice s i j = take (Z.to_nat (j - i)) (drop (Z.to_nat i) s).
Proof.
  intros Hij. unfold slice, clip.
  destruct (Z.ltb_spec i 0); [lia|]. destruct (Z.ltb_spec j 0); [lia|].
  destruct (Z.le_gt_cases i (Z.of_nat (length s))).
  - rewrite (Z.min_l i) by lia.
    destruct (Z.le_gt_cases j (Z.of_nat (length s))).
    + rewrite Z.min_l by lia. f_equal. lia.
    + rewrite Z.min_r by lia.
      rewrite !take_ge; [done | rewrite length_drop; lia ..].
  - rewrite !Z.min_r, Nat2Z.id by lia.
    rewrite !drop_ge by lia. by rewrite !take_nil.
Qed.

(** [rfind] answers [-1] or an index below the stop. *)
Lemma last_index_bounds c s i found :
  let r := last_index c s i found in
  r = found \/ i <= r < i + Z.of_nat (length s).
Proof.
  revert i found. induction s as [|x s IH]; intros i found; simpl; [by left|].
  destruct (IH (i + 1) (if (x =? c)%N then i else found)) as [->|H].
  - destruct (x =? c)%N; [right; lia | by left].
  - right. lia.
Qed.

Lemma rfind_bounds c s stop :
  0 <= stop -> -1 <= rfind c s stop < stop \/ (stop = 0 /\ rfind c s stop = -1).
Proof.
  intros Hstop. unfold rfind. rewrite slice_to_take by done.
  destruct (last_index_bounds c (take (Z.to_nat stop) s) 0 (-1)) as [->|H].
  - destruct (decide (stop = 0)); [by right | left; lia].
  - left. pose proof (firstn_le_length (Z.to_nat stop) s). lia.
Qed.


(** [splitlines] drops line boundaries only, which are white space. *)
Lemma content_splitlines_from n : forall (s line : str),
  (length s <= n)%nat ->
  content (concat (splitlines_from line s)) = content (reverse line ++ s).
Proof.
  assert (Hend : forall line : str,
    content (concat (if is_empty line then [] else [reverse line]))
    = content (reverse line ++ [])).
  { intros [|c line]; [done|]. cbn [is_empty concat]. by rewrite !app_nil_r. }
  induction n as [|n IH]; intros s line Hn.
  - destruct s; [|simpl in Hn; lia]. apply Hend.
  - destruct s as [|c rest]; [apply Hend|].
    cbn [splitlines_from]. cbn [length] in Hn.
    destruct (is_linebreak c) eqn:Hc.
    + apply linebreak_is_space in Hc.
      destruct rest as [|c' rest'].
      { cbn [concat].
        by rewrite app_nil_r, !content_app, (content_cons_space c), content_nil, app_nil_r. }
      destruct ((c =? CR)%N && (c' =? LF)%N)%bool eqn:Hcrlf.
      * apply andb_true_iff in Hcrlf as [_ Hlf%N.eqb_eq]. subst c'.
        cbn [concat]. rewrite !content_app, IH by (cbn [length] in Hn; lia).
        by rewrite reverse_nil, (content_cons_space c), (content_cons_space LF).
      * cbn [concat]. rewrite !content_app, IH by lia.
        by rewrite reverse_nil, (content_cons_space c).
    + rewrite IH by lia. by rewrite reverse_cons, <- app_assoc.
Qed.

Lemma content_splitlines s : content (concat (splitlines s)) = content s.
Proof. unfold splitlines. by rewrite (content_splitlines_from (length s)). Qed.

(** [range(0, stop, step)] with a positive step cuts a sequence of length
    [stop] into slices that give it back. *)
Lemma concat_slices {A} (step : nat) : forall (count : nat) (s : list A),
  (0 < step)%nat -> (length s <= count * step)%nat ->
  concat ((fun k : nat => take step (drop (k * step) s)) <$> seq 0 count) = s.
Proof.
  induction count as [|count IH]; intros s Hstep Hlen.
  - destruct s; [done | simpl in Hlen; lia].
  - cbn [seq]. rewrite fmap_cons. cbn [concat]. rewrite Nat.mul_0_l, drop_0.
    transitivity (take step s ++ drop step s); [|apply take_drop]. f_equal.
    etrans; [|apply (IH (drop step s)); [done | rewrite length_drop; lia]].
    f_equal. rewrite <- fmap_S_seq, <- list_fmap_compose.
    apply list_fmap_ext. intros _ k _. cbn [compose]. by rewrite drop_drop.
Qed.

Example strip_example :
  strip (str_of_string "  a b  ") = str_of_string "a b".
Proof. reflexivity. Qed.

Example splitlines_example :
  splitlines [97; 13; 10; 98; 10; 10; 99; 10]%N = [[97]; [98]; []; [99]]%N.
Proof. reflexivity. Qed.

Example rfind_example :
  rfind space (str_of_string "ab cd ef") 6 = 5 /\
  rfind space (str_of_string "ab cd ef") 5 = 2 /\
  rfind space (str_of_string "abcdef") 4 = -1.
Proof. repeat split. Qed.

Example slice_examples :
  slice_to [1; 2; 3; 4]%N (-1) = [1; 2; 3]%N /\
  slice_from [1; 2; 3; 4]%N (-1) = [4]%N /\
  slice_from [1; 2; 3; 4]%N 0 = [1; 2; 3; 4]%N /\
  slice [1; 2; 3; 4]%N 2 9 = [3; 4]%N.
Proof. repeat split. Qed.

Example range0_example : range0 2500 2000 = Some [0; 2000].
Proof. reflexivity. Qed.

End PyStr.

(** ** MessagePacker ([src/util.py])

    A call that does not return a list is [None]: the [while] loop of
    [split_long_line] is run on a fuel of one iteration per character of the
    line, which is enough whenever [max_len] is positive
    ([split_long_line_returns]), and [range] refuses a zero step. *)

Module Packer.
Import PyStr.

(** One iteration of the [while] loop of [split_long_line]: the chunk
    appended and the new [remaining]. *)
Definition split_step (remaining : str) (max_len : Z) : str * str :=
  let split_at := rfind space remaining max_len in
  let split_at := if split_at <=? 0 then max_len else split_at in
  let chunk := rstrip (slice_to remaining split_at) in
  let '(chunk, split_at) :=
    if is_empty chunk then (slice_to remaining max_len, max_len)
    else (chunk, split_at) in
  (chunk, lstrip (slice_from remaining split_at)).

Fixpoint split_loop (fuel : nat) (chunks : list str) (remaining : str)
    (max_len : Z) : option (list str) :=
  if len remaining >? max_len then
    match fuel with
    | O => None
    | S fuel =>
        let '(chunk, remaining) := split_step remaining max_len in
        split_loop fuel (chunks ++ [chunk]) remaining max_len
    end
  else Some (if is_empty remaining then chunks else chunks ++ [remaining]).

Definition split_long_line (line : str) (max_len : Z) : option (list str) :=
  if len line <=? max_len then Some [line]
  else split_loop (length line) [] line max_len.

(** The fallback hard split:
    [for i in range(0, len(piece), max_len): messages.append(piece[i : i + max_len])]. *)
Definition hard_split (piece : str) (max_len : Z) : option (list str) :=
  match range0 (len piece) max_len with
  | Some starts => Some ((fun i => slice piece i (i + max_len)) <$> starts)
  | None => None
  end.

(** The separator of two pieces of one message. *)
Definition separator : str := [LF; LF].

(** [for line in lines: pieces.extend(split_long_line(line, max_len))] *)
Fixpoint extend_pieces (pieces : list str) (lines : list str) (max_len : Z)
    : option (list str) :=
  match lines with
  | [] => Some pieces
  | line :: lines =>
      match split_long_line line max_len with
      | Some line_chunks => extend_pieces (pieces ++ line_chunks) lines max_len
      | None => None
      end
  end.

(** The pieces of a stripped, non-empty block. *)
Definition block_pieces (clean_block : str) (max_len : Z) : option (list str) :=
  if len clean_block >? max_len
  then extend_pieces [] (splitlines clean_block) max_len
  else Some [clean_block].

(** The body of [for piece in pieces], on the pair of [messages] and
    [current]. *)
Definition place_piece (max_len : Z) (st : list str * str) (piece : str)
    : option (list str * str) :=
  let '(messages, current) := st in
  if is_empty current then
    if len piece <=? max_len then Some (messages, piece)
    else chunks ← hard_split piece max_len; Some (messages ++ chunks, [])
  else
    let candidate := current ++ separator ++ piece in
    if len candidate <=? max_len then Some (messages, candidate)
    else
      let messages := messages ++ [current] in
      if len piece <=? max_len then Some (messages, piece)
      else chunks ← hard_split piece max_len; Some (messages ++ chunks, []).

Fixpoint place_pieces (max_len : Z) (st : list str * str) (pieces : list str)
    : option (list str * str) :=
  match pieces with
  | [] => Some st
  | piece :: pieces => st ← place_piece max_len st piece; place_pieces max_len st pieces
  end.

(** The body of [for block in blocks]. *)
Definition place_block (max_len : Z) (st : list str * str) (block : str)
    : option (list str * str) :=
  let clean_block := strip block in
  if is_empty clean_block then Some st
  else pieces ← block_pieces clean_block max_len; place_pieces max_len st pieces.

Fixpoint place_blocks (max_len : Z) (st : list str * str) (blocks : list str)
    : option (list str * str) :=
  match blocks with
  | [] => Some st
  | block :: blocks => st ← place_block max_len st block; place_blocks max_len st blocks
  end.

Definition split_blocks_to_messages (blocks : list str) (max_len : Z)
    : option (list str) :=
  '(messages, current) ← place_blocks max_len ([], []) blocks;
  Some (if is_empty current then messages else messages ++ [current]).

(** [DiscordWebhookClient.build_messages] with the default
    [max_content_length]. *)
Definition default_max_len : Z := 2000.

Example split_long_line_words :
  split_long_line (str_of_string "aaa bbb ccc") 5
  = Some [str_of_string "aaa"; str_of_string "bbb"; str_of_string "ccc"].
Proof. reflexivity. Qed.

Example split_long_line_hard :
  split_long_line (str_of_string "abcdefgh") 3
  = Some [str_of_string "abc"; str_of_string "def"; str_of_string "gh"].
Proof. reflexivity. Qed.

Example split_long_line_leading_space :
  split_long_line (str_of_string " abcdef") 3
  = Some [str_of_string " ab"; str_of_string "cde"; str_of_string "f"].
Proof. reflexivity. Qed.

(** With a bound of zero the loop of [split_long_line] does not end on a
    line that holds more than white space. *)
Example split_long_line_zero_bound :
  split_long_line (str_of_string "ab") 0 = None /\
  split_loop 1000 [] (str_of_string "ab") 0 = None.
Proof. split; vm_compute; reflexivity. Qed.

Example pack_joins_small_blocks :
  split_blocks_to_messages
    [str_of_string "ab"; str_of_string "  "; str_of_string " cd "; str_of_string "efgh"] 6
  = Some [[97; 98; 10; 10; 99; 100]%N; str_of_string "efgh"].
Proof. reflexivity. Qed.

Example pack_example_lengths :
  (map length <$> split_blocks_to_messages
     [str_of_string "short"; replicate 2500 120%N] 2000)
  = Some [5; 2000; 500]%nat.
Proof. vm_compute. reflexivity. Qed.

(** *** The loop of [split_long_line] *)

(** More fuel does not change a result. *)
Lemma split_loop_fuel_mono max_len fuel : forall chunks remaining out extra,
  split_loop fuel chunks remaining max_len = Some out ->
  split_loop (fuel + extra) chunks remaining max_len = Some out.
Proof.
  induction fuel as [|fuel IH]; intros chunks remaining out extra; cbn [split_loop].
  - destruct (len remaining >? max_len) eqn:Hlong; [done|].
    intros <-. destruct extra; cbn [Nat.add split_loop]; by rewrite Hlong.
  - cbn [Nat.add split_loop]. destruct (len remaining >? max_len); [|done].
    destruct (split_step remaining max_len) as [chunk rest]. apply IH.
Qed.

Section Packing.

Variable max_len : Z.
Hypothesis max_len_positive : 1 <= max_len.

(** A finished message: not empty, and within the bound. *)
Definition good (m : str) : Prop := m <> [] /\ len m <= max_len.

Lemma split_step_spec remaining :
  max_len < len remaining ->
  good (split_step remaining max_len).1 /\
  (length (split_step remaining max_len).2 < length remaining)%nat /\
  content (split_step remaining max_len).1 ++ content (split_step remaining max_len).2
  = content remaining.
Proof.
  intros Hlong. unfold split_step.
  pose proof (rfind_bounds space remaining max_len) as Hfind.
  set (found := rfind space remaining max_len) in *.
  set (split_at := if found <=? 0 then max_len else found).
  assert (1 <= split_at <= max_len) as Hsplit.
  { subst split_at. destruct (Z.leb_spec found 0); lia. }
  clearbody split_at. clear Hfind found.
  assert (forall k, 1 <= k <= max_len ->
    (length (lstrip (slice_from remaining k)) < length remaining)%nat) as Hrest.
  { intros k Hk. rewrite slice_from_drop by lia.
    pose proof (length_lstrip (drop (Z.to_nat k) remaining)) as Hle.
    rewrite length_drop in Hle. unfold len in Hlong. lia. }
  assert (forall k, 1 <= k <= max_len -> forall chunk,
    content chunk = content (slice_to remaining k) ->
    content chunk ++ content (lstrip (slice_from remaining k)) = content remaining)
    as Hcontent.
  { intros k Hk chunk ->. rewrite slice_to_take, slice_from_drop by lia.
    by rewrite content_lstrip, <- content_app, take_drop. }
  unfold good.
  destruct (is_empty (rstrip (slice_to remaining split_at))) eqn:Hchunk; cbn [fst snd].
  - split_and!; [| |by apply Hrest; lia|by apply Hcontent; [lia|]].
    + rewrite slice_to_take by lia. intros Hnil.
      apply (f_equal length) in Hnil. rewrite length_take in Hnil.
      unfold len in Hlong. cbn [length] in Hnil. lia.
    + rewrite slice_to_take by lia. unfold len. rewrite length_take. lia.
  - split_and!; [by apply is_empty_false| |by apply Hrest|].
    + pose proof (length_rstrip (slice_to remaining split_at)) as Hle.
      rewrite slice_to_take in Hle by lia. rewrite length_take in Hle.
      unfold len. rewrite slice_to_take by lia. lia.
    + apply Hcontent; [done|]. apply content_rstrip.
Qed.

Lemma split_loop_spec fuel : forall chunks remaining,
  (length remaining <= fuel)%nat ->
  exists out,
    split_loop fuel chunks remaining max_len = Some (chunks ++ out) /\
    Forall good out /\
    content (concat out) = content remaining.
Proof.
  induction fuel as [|fuel IH]; intros chunks remaining Hfuel; cbn [split_loop];
    destruct (Z.gtb_spec (len remaining) max_len) as [Hlong|Hshort].
  - unfold len in Hlong. lia.
  - destruct remaining; [|cbn [length] in Hfuel; lia].
    exists []. by rewrite app_nil_r.
  - destruct (split_step_spec remaining Hlong) as (Hgood & Hless & Hcontent).
    destruct (split_step remaining max_len) as [chunk rest]; cbn [fst snd] in *.
    destruct (IH (chunks ++ [chunk]) rest) as (out & -> & Hout & Hrest); [lia|].
    exists (chunk :: out). rewrite <- app_assoc. split_and!; [done|by constructor|].
    cbn [concat]. by rewrite content_app, Hrest.
  - destruct remaining as [|c tail] eqn:Hrem.
    + exists []. by rewrite app_nil_r.
    + rewrite <- Hrem in *. replace (is_empty remaining) with false by by subst.
      exists [remaining]. split_and!; [done| |cbn [concat]; by rewrite app_nil_r].
      constructor; [|done]. split; [by subst | lia].
Qed.

(** [split_long_line] returns, and its chunks are within the bound and hold
    the content of the line. *)
Lemma split_long_line_returns line :
  exists chunks,
    split_long_line line max_len = Some chunks /\
    Forall (fun chunk => len chunk <= max_len) chunks /\
    content (concat chunks) = content line.
Proof.
  unfold split_long_line. destruct (Z.leb_spec (len line) max_len) as [Hfit|Hlong].
  - exists [line]. split_and!; [done|by repeat constructor|].
    cbn [concat]. by rewrite app_nil_r.
  - destruct (split_loop_spec (length line) [] line) as (out & -> & Hout & Hcontent); [done|].
    exists out. split_and!; [done| |done].
    eapply Forall_impl; [exact Hout|]. by intros chunk [_ ?].
Qed.

(** *** The fallback hard split *)

Lemma hard_split_spec piece :
  exists chunks,
    hard_split piece max_len = Some chunks /\
    Forall good chunks /\
    concat chunks = piece.
Proof.
  unfold hard_split, range0.
  destruct (Z.eqb_spec max_len 0) as [|_]; [lia|].
  destruct (Z.ltb_spec max_len 0) as [|_]; [lia|].
  set (count := Z.to_nat ((len piece + max_len - 1) / max_len)).
  pose proof (len_nonneg piece) as Hlen.
  pose proof (Z.mul_div_le (len piece + max_len - 1) max_len ltac:(lia)) as Hlow.
  pose proof (Z.mul_succ_div_gt (len piece + max_len - 1) max_len ltac:(lia)) as Hhigh.
  assert (0 <= (len piece + max_len - 1) / max_len) as Hq by (apply Z.div_pos; lia).
  eexists. split; [done|]. rewrite <- list_fmap_compose.
  rewrite (list_fmap_ext _
    (fun k : nat => take (Z.to_nat max_len) (drop (k * Z.to_nat max_len) piece))).
  2:{ intros _ k _. cbn [compose]. rewrite slice_take_drop by lia.
      do 2 f_equal; lia. }
  split.
  - apply Forall_fmap, Forall_forall. intros k [_ Hk]%elem_of_seq. cbn [compose].
    split.
    + intros Hnil. apply (f_equal length) in Hnil.
      rewrite length_take, length_drop in Hnil. cbn [length] in Hnil.
      subst count. unfold len in *. nia.
    + unfold len. rewrite length_take. lia.
  - apply concat_slices; [lia|]. subst count. unfold len in *. nia.
Qed.

(** *** The packing loops

    The loops keep every finished message [good] and [current] within the
    bound, and neither lose nor reorder content. *)

Definition packing (st : list str * str) : Prop :=
  Forall good st.1 /\ len st.2 <= max_len.

(** What has been placed so far, in order. *)
Definition placed (st : list str * str) : str := concat st.1 ++ st.2.

Lemma content_separator : content separator = [].
Proof. reflexivity. Qed.

Lemma place_piece_spec st piece :
  packing st ->
  exists st',
    place_piece max_len st piece = Some st' /\
    packing st' /\
    content (placed st') = content (placed st) ++ content piece.
Proof.
  destruct st as [messages current]. intros [Hmessages Hcurrent].
  unfold place_piece, placed in *. cbn [fst snd] in *.
  assert (forall messages', Forall good messages' ->
    exists st',
      (if len piece <=? max_len then Some (messages', piece)
       else hard_split piece max_len ≫= fun chunks => Some (messages' ++ chunks, []))
      = Some st' /\
      packing st' /\
      content (concat st'.1 ++ st'.2) = content (concat messages') ++ content piece)
    as Hstart.
  { intros messages' Hmessages'.
    destruct (Z.leb_spec (len piece) max_len) as [Hfit|Hlong].
    - eexists. split_and!; [done|by split|]. apply content_app.
    - destruct (hard_split_spec piece) as (chunks & -> & Hchunks & Hpiece).
      eexists. split_and!; [done| |].
      + split; cbn [fst snd]; [by apply Forall_app | unfold len; simpl; lia].
      + cbn [fst snd mbind option_bind]. by rewrite app_nil_r, concat_app, content_app, Hpiece. }
  destruct current as [|c current'] eqn:Hcur; cbn [is_empty].
  - destruct (Hstart messages Hmessages) as (st' & -> & Hst' & Hcontent).
    exists st'. by rewrite app_nil_r.
  - rewrite <- Hcur in *.
    destruct (Z.leb_spec (len (current ++ separator ++ piece)) max_len) as [Hfit|Hlong].
    + eexists. split_and!; [done|by split|]. cbn [fst snd].
      rewrite !content_app, content_separator. cbn [app]. by rewrite app_assoc.
    + destruct (Hstart (messages ++ [current])) as (st' & -> & Hst' & Hcontent).
      { apply Forall_app. split; [done|]. constructor; [|done]. split; [by subst|done]. }
      exists st'. split_and!; [done|done|].
      rewrite Hcontent, concat_app. cbn [concat]. by rewrite app_nil_r, content_app.
Qed.

Lemma place_pieces_spec pieces : forall st,
  packing st ->
  exists st',
    place_pieces max_len st pieces = Some st' /\
    packing st' /\
    content (placed st') = content (placed st) ++ content (concat pieces).
Proof.
  induction pieces as [|piece pieces IH]; intros st Hst; cbn [place_pieces].
  - exists st. split_and!; [done|done|]. cbn [concat]. by rewrite content_nil, app_nil_r.
  - destruct (place_piece_spec st piece Hst) as (st1 & -> & Hst1 & Hcontent1).
    destruct (IH st1 Hst1) as (st' & Hrun & Hst' & Hcontent).
    exists st'. split_and!; [done|done|].
    cbn [concat]. by rewrite Hcontent, Hcontent1, content_app, app_assoc.
Qed.

Lemma extend_pieces_spec lines : forall pieces,
  exists more,
    extend_pieces pieces lines max_len = Some (pieces ++ more) /\
    content (concat more) = content (concat lines).
Proof.
  induction lines as [|line lines IH]; intros pieces; cbn [extend_pieces].
  - exists []. by rewrite app_nil_r.
  - destruct (split_long_line_returns line) as (chunks & -> & _ & Hchunks).
    destruct (IH (pieces ++ chunks)) as (more & -> & Hmore).
    exists (chunks ++ more). rewrite app_assoc. split; [done|].
    cbn [concat]. by rewrite concat_app, !content_app, Hmore, Hchunks.
Qed.

Lemma block_pieces_spec clean_block :
  exists pieces,
    block_pieces clean_block max_len = Some pieces /\
    content (concat pieces) = content clean_block.
Proof.
  unfold block_pieces. destruct (len clean_block >? max_len).
  - destruct (extend_pieces_spec (splitlines clean_block) []) as (more & -> & Hmore).
    exists more. split; [done|]. by rewrite Hmore, content_splitlines.
  - exists [clean_block]. split; [done|]. cbn [concat]. by rewrite app_nil_r.
Qed.

Lemma place_block_spec st block :
  packing st ->
  exists st',
    place_block max_len st block = Some st' /\
    packing st' /\
    content (placed st') = content (placed st) ++ content block.
Proof.
  intros Hst. unfold place_block.
  destruct (is_empty (strip block)) eqn:Hblank.
  - exists st. split_and!; [done|done|].
    apply is_empty_true in Hblank.
    by rewrite <- (content_strip block), Hblank, content_nil, app_nil_r.
  - destruct (block_pieces_spec (strip block)) as (pieces & -> & Hpieces).
    destruct (place_pieces_spec pieces st Hst) as (st' & Hrun & Hst' & Hcontent).
    exists st'. split_and!; [done|done|].
    by rewrite Hcontent, Hpieces, content_strip.
Qed.

Lemma place_blocks_spec blocks : forall st,
  packing st ->
  exists st',
    place_blocks max_len st blocks = Some st' /\
    packing st' /\
    content (placed st') = content (placed st) ++ content (concat blocks).
Proof.
  induction blocks as [|block blocks IH]; intros st Hst; cbn [place_blocks].
  - exists st. split_and!; [done|done|]. cbn [concat]. by rewrite content_nil, app_nil_r.
  - destruct (place_block_spec st block Hst) as (st1 & -> & Hst1 & Hcontent1).
    destruct (IH st1 Hst1) as (st' & Hrun & Hst' & Hcontent).
    exists st'. split_and!; [done|done|].
    cbn [concat]. by rewrite Hcontent, Hcontent1, content_app, app_assoc.
Qed.

(** The packer returns; its messages are [good] and hold the content of
    the blocks. *)
Lemma split_blocks_to_messages_spec blocks :
  exists messages,
    split_blocks_to_messages blocks max_len = Some messages /\
    Forall good messages /\
    content (concat messages) = content (concat blocks).
Proof.
  unfold split_blocks_to_messages.
  destruct (place_blocks_spec blocks ([], [])) as ([messages current] & -> & Hst & Hcontent).
  { split; cbn [fst snd]; [constructor | unfold len; cbn [length]; lia]. }
  destruct Hst as [Hmessages Hcurrent]. unfold placed in Hcontent. cbn [fst snd] in *.
  cbn [mbind option_bind]. eexists. split; [done|].
  destruct current as [|c current'] eqn:Hcur; cbn [is_empty].
  - split; [done|]. by rewrite app_nil_r in Hcontent.
  - rewrite <- Hcur in *. split.
    + apply Forall_app. split; [done|]. constructor; [|done]. split; [by subst|done].
    + rewrite concat_app. cbn [concat]. by rewrite app_nil_r.
Qed.

End Packing.

(** [DiscordWebhookClient.send] returns at once, sending nothing, on
    content that is empty ([if not content: return]). *)
Definition skipped_by_send (content : str) : bool := is_empty content.

(** C2. For a positive [max_len] the packer returns a list of messages;
    every message has length at most [max_len]; and the messages, read in
    order with white space ignored, are the blocks read in order with white
    space ignored: no content is lost and none is reordered. *)
Theorem pack_bounded_and_lossless (blocks : list str) (max_len : Z) :
  1 <= max_len ->
  exists messages,
    split_blocks_to_messages blocks max_len = Some messages /\
    Forall (fun m => len m <= max_len) messages /\
    content (concat messages) = content (concat blocks).
Proof.
  intros Hpos.
  destruct (split_blocks_to_messages_spec max_len Hpos blocks)
    as (messages & Hrun & Hgood & Hcontent).
  exists messages. split_and!; [done| |done].
  eapply Forall_impl; [exact Hgood|]. by intros m [_ ?].
Qed.

Lemma pack_bounded_and_lossless_witness :
  1 <= 6 /\
  exists messages,
    split_blocks_to_messages
      [str_of_string "ab"; str_of_string "  "; str_of_string " cd "; str_of_string "efgh"] 6
    = Some messages /\
    Forall (fun m => len m <= 6) messages /\
    content (concat messages)
    = content (concat [str_of_string "ab"; str_of_string "  "; str_of_string " cd ";
                       str_of_string "efgh"]).
Proof. split; [lia | apply pack_bounded_and_lossless; lia]. Defined.

(** C10. For [max_len >= 1] the packer returns a list of messages none of
    which is the empty string, whatever blank blocks and empty lines the
    input holds; so [send] skips none of them. *)
Theorem pack_messages_nonempty (blocks : list str) (max_len : Z) :
  1 <= max_len ->
  exists messages,
    split_blocks_to_messages blocks max_len = Some messages /\
    Forall (fun m => m <> [] /\ skipped_by_send m = false) messages.
Proof.
  intros Hpos.
  destruct (split_blocks_to_messages_spec max_len Hpos blocks)
    as (messages & Hrun & Hgood & _).
  exists messages. split; [done|].
  eapply Forall_impl; [exact Hgood|].
  intros m [Hm _]. split; [done|]. by apply is_empty_false.
Qed.

Lemma pack_messages_nonempty_witness :
  1 <= 3 /\
  exists messages,
    split_blocks_to_messages
      [[]; str_of_string "   "; [97; 10; 10; 98; 32; 32; 32; 99]%N] 3 = Some messages /\
    Forall (fun m => m <> [] /\ skipped_by_send m = false) messages.
Proof. split; [lia | apply pack_messages_nonempty; lia]. Defined.

(** An interior empty line of a block that is split by lines is a piece of
    its own, and is joined to its neighbours, not sent alone. *)
Example pack_empty_interior_line :
  split_blocks_to_messages [[97; 10; 10; 98; 32; 32; 32; 99]%N] 3
  = Some [[97; 10; 10]%N; [98]%N; [99]%N].
Proof. vm_compute. reflexivity. Qed.

(** The example of the specification, [pack(["short", "x"*2500], 2000)]. *)
Definition example_blocks : list str := [str_of_string "short"; replicate 2500 120%N].

(** C7, as stated, fails: the result does not consist of two units. *)
Lemma pack_example_not_two_units :
  ~ exists unit1 unit2,
      split_blocks_to_messages example_blocks 2000 = Some [unit1; unit2].
Proof.
  intros (unit1 & unit2 & Hrun).
  apply (f_equal (fmap (M := option) length)) in Hrun.
  vm_compute in Hrun. discriminate Hrun.
Qed.

(** C7, amended. [pack(["short", "x"*2500], 2000)] is three units: ["short"]
    alone, then the 2500 characters cut into a unit of 2000 and a unit of
    500. *)
Theorem pack_example_three_units :
  split_blocks_to_messages example_blocks 2000
  = Some [str_of_string "short"; replicate 2000 120%N; replicate 500 120%N].
Proof. vm_compute. reflexivity. Qed.

End Packer.

(** ** Results of calls that may raise *)

Inductive exn :=
| JSONDecodeError | FileNotFoundError | ValueError | RuntimeError
| HTTPError | DiscordWebhookError.

Inductive result (A : Type) :=
| Ok (a : A)
| Raise (e : exn).

Arguments Ok {A} a.
Arguments Raise {A} e.

(** ** The persisted ledger ([src/state.py], loading and saving)

    What [json.load] returns is a JSON value; the state is a Python [dict]
    whose keys are strings, a [gmap string json]. *)

Module LedgerFile.

#[local] Set Warnings "-register-all".

Inductive json :=
| JNull
| JBool (b : bool)
| JNum (n : Z)
| JStr (s : string)
| JList (l : list json)
| JDict (d : gmap string json).

Abbreviation dict := (gmap string json).

Local Open Scope string_scope.

Definition DEFAULT_STATE : dict :=
  {[ "sent_ids" := JList [];
     "last_success_utc" := JNull;
     "last_max_published_utc_by_topic" := JDict ∅ ]}.

(** [isinstance(state.get(key), list)] and [isinstance(state.get(key), dict)] *)
Definition is_list (v : option json) : bool :=
  match v with Some (JList _) => true | _ => false end.

Definition is_dict (v : option json) : bool :=
  match v with Some (JDict _) => true | _ => false end.

(** [ensure_state_shape]; [raw] is a JSON object or [None] (JSON [null]),
    as the annotation [Dict[str, Any] | None] has it.  [state.update(raw)]
    is the union that prefers [raw]. *)
Definition ensure_state_shape (raw : option dict) : dict :=
  let state := DEFAULT_STATE in
  let state :=
    match raw with
    | Some raw => if (size raw =? 0)%nat then state else raw ∪ state
    | None => state
    end in
  let state :=
    if is_list (state !! "sent_ids") then state
    else <["sent_ids" := JList []]> state in
  let state :=
    if is_dict (state !! "last_max_published_utc_by_topic") then state
    else <["last_max_published_utc_by_topic" := JDict ∅]> state in
  state.

(** [new_state] *)
Definition new_state : dict := ensure_state_shape None.

(** What the state file holds: text that [json.load] refuses, or a JSON
    document that is an object or [null], the values [ensure_state_shape]
    is annotated for. *)
Inductive contents :=
| NotJson
| Json (raw : option dict).

(** What a run does to the outside, in order: a write of the state file, a
    message accepted by the webhook. *)
Inductive event :=
| Saved (state : dict)
| Posted (content : PyStr.str).

(** The outside of a run: the state file, and what the run has done so
    far, oldest first. *)
Record world := World {
  file : option contents;
  events : list event
}.

(** [save_state(path, state)] *)
Definition save_state (state : dict) (w : world) : world :=
  {| file := Some (Json (Some state)); events := events w ++ [Saved state] |}.

(** [load_state(path)] *)
Definition load_state (w : world) : result dict * world :=
  match file w with
  | None => (Ok DEFAULT_STATE, save_state DEFAULT_STATE w)
  | Some NotJson => (Raise JSONDecodeError, w)
  | Some (Json raw) => (Ok (ensure_state_shape raw), w)
  end.

(** The shape the specification expects of a persisted ledger. *)
Definition expected_shape (raw : dict) : bool :=
  is_list (raw !! "sent_ids") && is_dict (raw !! "last_max_published_utc_by_topic").

(** A persisted ledger whose delivery history is not a list and whose topic
    map is not a mapping. *)
Definition corrupt_ledger : dict :=
  {[ "sent_ids" := JStr "2401.00001v1";
     "last_success_utc" := JStr "2024-01-02T00:00:00Z";
     "last_max_published_utc_by_topic" := JNum 7 ]}.

Example new_state_is_default : new_state = DEFAULT_STATE.
Proof. reflexivity. Qed.

Example load_state_first_run :
  load_state (World None [])
  = (Ok DEFAULT_STATE, World (Some (Json (Some DEFAULT_STATE))) [Saved DEFAULT_STATE]).
Proof. reflexivity. Qed.

Lemma is_list_spec v : is_list v = true <-> exists l, v = Some (JList l).
Proof.
  split; [|by intros [l ->]].
  destruct v as [[]|]; try done. eauto.
Qed.

Lemma is_dict_spec v : is_dict v = true <-> exists d, v = Some (JDict d).
Proof.
  split; [|by intros [d ->]].
  destruct v as [[]|]; try done. eauto.
Qed.

Lemma default_state_other key :
  key <> "sent_ids" -> key <> "last_success_utc" ->
  key <> "last_max_published_utc_by_topic" ->
  DEFAULT_STATE !! key = None.
Proof.
  intros. unfold DEFAULT_STATE.
  rewrite !lookup_insert_ne by done. by rewrite lookup_singleton_ne.
Qed.

(** The merge of the file's fields over the defaults. *)
Lemma merged_lookup (raw : dict) key :
  ((if (size raw =? 0)%nat then DEFAULT_STATE else raw ∪ DEFAULT_STATE) : dict) !! key
  = match raw !! key with
    | Some v => Some v
    | None => DEFAULT_STATE !! key
    end.
Proof.
  destruct (Nat.eqb_spec (size raw) 0) as [Hempty|_].
  - apply map_size_empty_inv in Hempty. subst raw. by rewrite lookup_empty.
  - rewrite lookup_union. by destruct (raw !! key), (DEFAULT_STATE !! key).
Qed.

(** What [ensure_state_shape] returns, field by field. *)
Lemma ensure_state_shape_lookup (raw : dict) key :
  ensure_state_shape (Some raw) !! key
  = if decide (key = "sent_ids") then
      Some (match raw !! "sent_ids" with Some (JList l) => JList l | _ => JList [] end)
    else if decide (key = "last_max_published_utc_by_topic") then
      Some (match raw !! "last_max_published_utc_by_topic" with
            | Some (JDict d) => JDict d
            | _ => JDict ∅
            end)
    else if decide (key = "last_success_utc") then
      Some (default JNull (raw !! "last_success_utc"))
    else raw !! key.
Proof.
  unfold ensure_state_shape.
  set (merged := if (size raw =? 0)%nat then DEFAULT_STATE else raw ∪ DEFAULT_STATE).
  assert (Hmerged : forall k, merged !! k = match raw !! k with
                                           | Some v => Some v
                                           | None => DEFAULT_STATE !! k
                                           end) by apply merged_lookup.
  clearbody merged.
  set (state1 := if is_list (merged !! "sent_ids") then merged
                 else <["sent_ids" := JList []]> merged).
  assert (Hstate1 : forall k, state1 !! k =
    if decide (k = "sent_ids")
    then Some (match raw !! "sent_ids" with Some (JList l) => JList l | _ => JList [] end)
    else merged !! k).
  { intros k. subst state1. pose proof (Hmerged "sent_ids") as Hids.
    destruct (is_list (merged !! "sent_ids")) eqn:Hlist.
    - case_decide as Hk; [subst k|done].
      apply is_list_spec in Hlist as [l Hl]. rewrite Hl in Hids |- *.
      destruct (raw !! "sent_ids") as [v|]; [by inversion Hids|].
      by inversion Hids.
    - rewrite lookup_insert. case_decide as Hk; case_decide; try congruence.
      f_equal. destruct (raw !! "sent_ids") as [[]|]; try done.
      by rewrite Hids in Hlist. }
  clearbody state1.
  pose proof (Hstate1 "last_max_published_utc_by_topic") as Htopics.
  rewrite decide_False, Hmerged in Htopics by done.
  destruct (is_dict (state1 !! "last_max_published_utc_by_topic")) eqn:Hdict.
  - rewrite Hstate1. case_decide; [done|]. rewrite Hmerged.
    case_decide as Hk; [subst key|].
    + apply is_dict_spec in Hdict as [d Hd]. rewrite Hd in Htopics.
      destruct (raw !! "last_max_published_utc_by_topic") as [v|]; by inversion Htopics.
    + case_decide as Hk'; [subst key; by destruct (raw !! "last_success_utc")|].
      destruct (raw !! key) eqn:Hraw; [done|].
      by apply default_state_other.
  - rewrite lookup_insert. case_decide as Hk; [subst key|].
    + rewrite decide_False, decide_True by done. f_equal.
      destruct (raw !! "last_max_published_utc_by_topic") as [[]|]; try done.
      by rewrite Htopics in Hdict.
    + rewrite Hstate1. case_decide; [done|]. rewrite decide_False by done.
      rewrite Hmerged.
      case_decide as Hk'; [subst key; by destruct (raw !! "last_success_utc")|].
      destruct (raw !! key) eqn:Hraw; [done|].
      by apply default_state_other.
Qed.

(** C3, as stated, fails: a persisted ledger of the wrong shape is loaded
    without error, its delivery history and its topic map silently replaced
    by empty ones, and the file is left as it was. *)
Lemma load_state_resets_corrupt_ledger :
  expected_shape corrupt_ledger = false /\
  load_state (World (Some (Json (Some corrupt_ledger))) [])
  = (Ok {[ "sent_ids" := JList [];
           "last_success_utc" := JStr "2024-01-02T00:00:00Z";
           "last_max_published_utc_by_topic" := JDict ∅ ]},
     World (Some (Json (Some corrupt_ledger))) []).
Proof. split; [reflexivity|]. vm_compute. reflexivity. Qed.

(** C3, amended. Loading a state file that exists never writes it.  A file
    that is not JSON is fatal.  A JSON object is always loaded:
    [sent_ids] is kept when it is a list and replaced by the empty list
    otherwise, [last_max_published_utc_by_topic] is kept when it is a mapping
    and replaced by the empty mapping otherwise, a missing
    [last_success_utc] is [None], and every other field is returned as it is
    stored.  JSON [null] loads as the default state. *)
Theorem load_state_existing_file (w : world) (c : contents) :
  file w = Some c ->
  match c with
  | NotJson => load_state w = (Raise JSONDecodeError, w)
  | Json None => load_state w = (Ok DEFAULT_STATE, w)
  | Json (Some raw) =>
      exists state,
        load_state w = (Ok state, w) /\
        state !! "sent_ids"
        = Some (match raw !! "sent_ids" with Some (JList l) => JList l | _ => JList [] end) /\
        state !! "last_max_published_utc_by_topic"
        = Some (match raw !! "last_max_published_utc_by_topic" with
                | Some (JDict topics) => JDict topics
                | _ => JDict ∅
                end) /\
        state !! "last_success_utc" = Some (default JNull (raw !! "last_success_utc")) /\
        forall key,
          key <> "sent_ids" -> key <> "last_max_published_utc_by_topic" ->
          key <> "last_success_utc" ->
          state !! key = raw !! key
  end.
Proof.
  intros Hfile. unfold load_state. rewrite Hfile.
  destruct c as [|[raw|]]; [done| |done].
  exists (ensure_state_shape (Some raw)). split; [done|].
  split_and!; try (rewrite ensure_state_shape_lookup; by repeat case_decide).
  intros key H1 H2 H3. rewrite ensure_state_shape_lookup. by repeat case_decide.
Qed.

Lemma load_state_existing_file_witness :
  exists state,
    load_state (World (Some (Json (Some corrupt_ledger))) [])
    = (Ok state, World (Some (Json (Some corrupt_ledger))) []) /\
    state !! "sent_ids" = Some (JList []) /\
    state !! "last_max_published_utc_by_topic" = Some (JDict ∅) /\
    state !! "last_success_utc" = Some (JStr "2024-01-02T00:00:00Z") /\
    forall key,
      key <> "sent_ids" -> key <> "last_max_published_utc_by_topic" ->
      key <> "last_success_utc" ->
      state !! key = corrupt_ledger !! key.
Proof.
  exact (load_state_existing_file
           (World (Some (Json (Some corrupt_ledger))) [])
           (Json (Some corrupt_ledger)) eq_refl).
Defined.

End LedgerFile.

(** ** ISO timestamps ([src/util.py], [to_utc_iso])

    The origin of the time line is 1970-01-01T00:00:00 UTC. *)

Module IsoFormat.
Import Time.

Local Open Scope string_scope.
Local Open Scope Z_scope.

Definition digit (n : Z) : string :=
  String (Ascii.ascii_of_nat (48 + Z.to_nat n)) EmptyString.

(** [n] in decimal on [width] digits, zero padded. *)
Fixpoint zero_padded (width : nat) (n : Z) : string :=
  match width with
  | O => EmptyString
  | S width => zero_padded width (n / 10) +:+ digit (n mod 10)
  end.

(** The proleptic Gregorian date, as year, month and day, of a number of
    days since 1970-01-01. *)
Definition civil_from_days (days : Z) : Z * Z * Z :=
  let z := days + 719468 in
  let era := z / 146097 in
  let doe := z - era * 146097 in
  let yoe := (doe - doe / 1460 + doe / 36524 - doe / 146096) / 365 in
  let doy := doe - (365 * yoe + yoe / 4 - yoe / 100) in
  let mp := (5 * doy + 2) / 153 in
  let day := doy - (153 * mp + 2) / 5 + 1 in
  let month := if mp <? 10 then mp + 3 else mp - 9 in
  let year := yoe + era * 400 + (if month <=? 2 then 1 else 0) in
  (year, month, day).

Definition microseconds_per_day : Z := 24 * microseconds_per_hour.

(** [dt.isoformat()] of an aware UTC datetime. *)
Definition isoformat (dt : datetime) : string :=
  let '(year, month, day) := civil_from_days (dt / microseconds_per_day) in
  let in_day := dt mod microseconds_per_day in
  let second_of_day := in_day / 1000000 in
  let microsecond := in_day mod 1000000 in
  zero_padded 4 year +:+ "-" +:+ zero_padded 2 month +:+ "-" +:+ zero_padded 2 day
  +:+ "T" +:+ zero_padded 2 (second_of_day / 3600)
  +:+ ":" +:+ zero_padded 2 (second_of_day / 60 mod 60)
  +:+ ":" +:+ zero_padded 2 (second_of_day mod 60)
  +:+ (if microsecond =? 0 then "" else "." +:+ zero_padded 6 microsecond)
  +:+ "+00:00".

(** [s.replace(old, new)] for a non-empty [old]; [skip] characters of a
    match just replaced are still to be passed over. *)
Fixpoint replace_from (old new : string) (skip : nat) (s : string) : string :=
  match s with
  | EmptyString => EmptyString
  | String c rest =>
      match skip with
      | S skip => replace_from old new skip rest
      | O =>
          if String.prefix old s
          then new +:+ replace_from old new (String.length old - 1) rest
          else String c (replace_from old new 0 rest)
      end
  end.

Definition replace (old new s : string) : string := replace_from old new 0 s.

(** [to_utc_iso(dt)] *)
Definition to_utc_iso (dt : option datetime) : option string :=
  match dt with
  | None => None
  | Some dt => Some (replace "+00:00" "Z" (isoformat dt))
  end.

(** [to_utc_iso] of a datetime that is not [None]. *)
Definition utc_iso (dt : datetime) : string := replace "+00:00" "Z" (isoformat dt).

(** 2024-01-01T00:00:00Z, and one day later. *)
Definition jan_1_2024 : datetime := 1704067200 * 1000000.
Definition jan_2_2024 : datetime := jan_1_2024 + microseconds_per_day.

Example utc_iso_epoch : utc_iso 0 = "1970-01-01T00:00:00Z".
Proof. reflexivity. Qed.

Example utc_iso_jan_1_2024 : utc_iso jan_1_2024 = "2024-01-01T00:00:00Z".
Proof. reflexivity. Qed.

Example utc_iso_leap_day :
  utc_iso (1709164800 * 1000000 + 86399 * 1000000 + 250) = "2024-02-29T23:59:59.000250Z".
Proof. reflexivity. Qed.

Example utc_iso_before_epoch : utc_iso (-1) = "1969-12-31T23:59:59.999999Z".
Proof. reflexivity. Qed.

Example replace_example : replace "ab" "X" "cababdab" = "cXXdX".
Proof. reflexivity. Qed.

End IsoFormat.

(** ** DeliveryLedger in memory ([src/state.py], recording a run)

    The state of a ledger that has the shape [ensure_state_shape] gives it,
    with the types of the annotations: the delivered ids are strings, in
    delivery order; the timestamps are stored as ISO strings. *)

Module Ledger.
Import Time IsoFormat PyStr.

Local Open Scope string_scope.
Local Open Scope Z_scope.

Record State := {
  sent_ids : list string;
  last_success_utc : option string;
  last_max_published_utc_by_topic : gmap string string
}.

(** [sent_id_set] *)
Definition sent_id_set (state : State) : gset string := list_to_set (sent_ids state).

(** The body of [for arxiv_id in ids], on the pair of [current] and [seen]. *)
Definition append_id (acc : list string * gset string) (arxiv_id : string)
    : list string * gset string :=
  let '(current, seen) := acc in
  if bool_decide (arxiv_id <> "") && bool_decide (arxiv_id ∉ seen)
  then ((current ++ [arxiv_id])%list, seen ∪ {[arxiv_id]})
  else (current, seen).

(** [append_sent_ids] *)
Definition append_sent_ids (state : State) (ids : list string) (max_sent_ids : Z)
    : State :=
  let current := sent_ids state in
  let seen : gset string := list_to_set current in
  let current := (foldl append_id (current, seen) ids).1 in
  let current :=
    if Z.of_nat (length current) >? max_sent_ids
    then slice_from current (- max_sent_ids)
    else current in
  {| sent_ids := current;
     last_success_utc := last_success_utc state;
     last_max_published_utc_by_topic := last_max_published_utc_by_topic state |}.

(** The body of [for topic_name, dt in last_max_published_utc_by_topic.items()]. *)
Definition record_topic (topic_name : string) (dt : option datetime)
    (topic_map : gmap string string) : gmap string string :=
  match dt with
  | Some dt => <[topic_name := utc_iso dt]> topic_map
  | None => topic_map
  end.

(** [update_success_metadata] *)
Definition update_success_metadata (state : State) (now_utc : datetime)
    (supplied : gmap string (option datetime)) : State :=
  let topic_map := last_max_published_utc_by_topic state in
  let topic_map := map_fold record_topic topic_map supplied in
  {| sent_ids := sent_ids state;
     last_success_utc := to_utc_iso (Some now_utc);
     last_max_published_utc_by_topic := topic_map |}.

Example append_skips_known_and_empty :
  sent_ids (append_sent_ids
              {| sent_ids := ["a"; "b"]; last_success_utc := None;
                 last_max_published_utc_by_topic := ∅ |}
              ["b"; ""; "c"; "c"; "d"] 10)
  = ["a"; "b"; "c"; "d"].
Proof. vm_compute. reflexivity. Qed.

Example append_truncates_oldest_first :
  sent_ids (append_sent_ids
              {| sent_ids := ["a"; "b"]; last_success_utc := None;
                 last_max_published_utc_by_topic := ∅ |}
              ["c"; "d"] 3)
  = ["b"; "c"; "d"].
Proof. vm_compute. reflexivity. Qed.

(** *** Appending delivered ids *)

(** The loop appends, in order and once each, the ids that are not empty
    and not yet in the ledger. *)
Lemma append_loop_spec ids : forall (current : list string) (seen : gset string),
  seen = list_to_set current ->
  exists added,
    (foldl append_id (current, seen) ids).1 = (current ++ added)%list /\
    NoDup added /\
    forall x, x ∈ added <-> x ∈ ids /\ x <> "" /\ x ∉ current.
Proof.
  induction ids as [|arxiv_id ids IH]; intros current seen Hseen; cbn [foldl].
  - exists []. rewrite app_nil_r. split_and!; [done|constructor|].
    intros x. split; [by intros ?%elem_of_nil | by intros [?%elem_of_nil _]].
  - unfold append_id at 2.
    destruct (bool_decide (arxiv_id <> "") && bool_decide (arxiv_id ∉ seen)) eqn:Hnew.
    + apply andb_true_iff in Hnew as [Hid%bool_decide_eq_true Hseen'%bool_decide_eq_true].
      rewrite Hseen, not_elem_of_list_to_set in Hseen'.
      destruct (IH (current ++ [arxiv_id])%list (seen ∪ {[arxiv_id]}))
        as (added & Hrun & Hnodup & Hadded).
      { by rewrite Hseen, list_to_set_snoc_L. }
      exists (arxiv_id :: added). rewrite Hrun, <- app_assoc. split_and!; [done| |].
      * apply NoDup_cons. split; [|done].
        intros (_ & _ & Hin)%Hadded. apply Hin, elem_of_app. right. by left.
      * intros x. rewrite !elem_of_cons, Hadded, elem_of_app, list_elem_of_singleton.
        destruct (decide (x = arxiv_id)) as [->|]; [by intuition|tauto].
    + apply andb_false_iff in Hnew.
      destruct (IH current seen Hseen) as (added & Hrun & Hnodup & Hadded).
      exists added. split_and!; [done|done|].
      intros x. rewrite Hadded, elem_of_cons.
      split; [tauto|]. intros ([->|Hx] & Hne & Hcur); [|done].
      exfalso. destruct Hnew as [Hnew%bool_decide_eq_false|Hnew%bool_decide_eq_false].
      * done.
      * apply Hnew. by rewrite Hseen, not_elem_of_list_to_set.
Qed.

(** With a bound of at least one, [append_sent_ids] keeps the last
    [max_sent_ids] ids of the ledger extended by the new ids. *)
Lemma append_sent_ids_spec (state : State) (ids : list string) (max_sent_ids : Z) :
  1 <= max_sent_ids ->
  exists added,
    NoDup added /\
    (forall x, x ∈ added <-> x ∈ ids /\ x <> "" /\ x ∉ sent_ids state) /\
    sent_ids (append_sent_ids state ids max_sent_ids)
    = drop (length (sent_ids state ++ added)%list - Z.to_nat max_sent_ids)
           (sent_ids state ++ added)%list /\
    Z.of_nat (length (sent_ids (append_sent_ids state ids max_sent_ids))) <= max_sent_ids.
Proof.
  intros Hmax. unfold append_sent_ids. cbn [sent_ids].
  destruct (append_loop_spec ids (sent_ids state) (list_to_set (sent_ids state)) eq_refl)
    as (added & -> & Hnodup & Hadded).
  exists added. split_and!; [done|done| |];
    destruct (Z.gtb_spec (Z.of_nat (length (sent_ids state ++ added)%list)) max_sent_ids)
      as [Hlong|Hshort].
  - unfold slice_from, clip. destruct (Z.ltb_spec (- max_sent_ids) 0); [|lia].
    f_equal. lia.
  - replace (_ - _)%nat with 0%nat by lia. by rewrite drop_0.
  - unfold slice_from, clip. destruct (Z.ltb_spec (- max_sent_ids) 0); [|lia].
    rewrite length_drop. lia.
  - done.
Qed.

(** C4 fails on the code for a bound of zero: [current[-0:]] is the whole
    list, so nothing is dropped and the ledger is longer than its bound. *)
Theorem append_sent_ids_zero_bound :
  let state := {| sent_ids := ["2401.00001v1"]; last_success_utc := None;
                  last_max_published_utc_by_topic := ∅ |} in
  let state' := append_sent_ids state ["2401.00002v1"] 0 in
  sent_ids state' = ["2401.00001v1"; "2401.00002v1"] /\
  ~ Z.of_nat (length (sent_ids state')) <= 0.
Proof.
  cbv zeta. assert (Hrun : sent_ids (append_sent_ids
      {| sent_ids := ["2401.00001v1"]; last_success_utc := None;
         last_max_published_utc_by_topic := ∅ |} ["2401.00002v1"] 0)
    = ["2401.00001v1"; "2401.00002v1"]) by (vm_compute; reflexivity).
  rewrite Hrun. split; [done | cbn; lia].
Qed.

(** *** Recording the topics' newest publication times *)

Lemma record_topics_lookup (topic_map : gmap string string)
    (supplied : gmap string (option datetime)) (topic_name : string) :
  map_fold record_topic topic_map supplied !! topic_name
  = match supplied !! topic_name with
    | Some (Some dt) => Some (utc_iso dt)
    | _ => topic_map !! topic_name
    end.
Proof.
  revert topic_name.
  apply (map_fold_weak_ind
    (fun (result : gmap string string) (seen : gmap string (option datetime)) =>
       forall topic_name,
         result !! topic_name
         = match seen !! topic_name with
           | Some (Some dt) => Some (utc_iso dt)
           | _ => topic_map !! topic_name
           end)).
  - intros topic_name. by rewrite lookup_empty.
  - intros name dt seen result Hfresh IH topic_name.
    destruct (decide (name = topic_name)) as [->|Hne].
    + rewrite lookup_insert_eq. destruct dt as [dt|]; cbn [record_topic].
      * by rewrite lookup_insert_eq.
      * by rewrite IH, Hfresh.
    + rewrite lookup_insert_ne by done. destruct dt as [dt|]; cbn [record_topic].
      * by rewrite lookup_insert_ne.
      * apply IH.
Qed.

(** A ledger whose newest publication seen for cs.LG is 2024-01-02. *)
Definition ledger_jan_2 : State :=
  {| sent_ids := []; last_success_utc := None;
     last_max_published_utc_by_topic := {[ "cs.LG" := utc_iso jan_2_2024 ]} |}.

(** C5, as stated, fails: an older timestamp supplied for a topic replaces
    the newer one that is stored. *)
Lemma update_success_metadata_overwrites_newer :
  jan_1_2024 < jan_2_2024 /\
  last_max_published_utc_by_topic ledger_jan_2 !! "cs.LG" = Some "2024-01-02T00:00:00Z" /\
  last_max_published_utc_by_topic
    (update_success_metadata ledger_jan_2 jan_2_2024 {[ "cs.LG" := Some jan_1_2024 ]})
  !! "cs.LG" = Some "2024-01-01T00:00:00Z".
Proof. split_and!; [reflexivity | reflexivity | vm_compute; reflexivity]. Qed.

(** C5, amended. After [update_success_metadata] the entry of a topic is
    the supplied timestamp whenever one is supplied for the topic and is not
    [None], be it newer or older than the stored one; the entry of a topic
    that is not supplied, or supplied as [None], is the stored one. *)
Theorem update_success_metadata_topics (state : State) (now_utc : datetime)
    (supplied : gmap string (option datetime)) (topic_name : string) :
  last_max_published_utc_by_topic (update_success_metadata state now_utc supplied)
  !! topic_name
  = match supplied !! topic_name with
    | Some (Some dt) => Some (utc_iso dt)
    | Some None | None => last_max_published_utc_by_topic state !! topic_name
    end.
Proof. unfold update_success_metadata. cbn. apply record_topics_lookup. Qed.

End Ledger.

(** ** CandidateSelector ([src/filter_rank.py], the partition)

    [split_recent_and_educational] has three parameters: the candidates and
    the two caps.  Its sample is drawn by [random.sample], which reads and
    advances the generator of Python's [random] module, a state of the
    process; the embedding threads that state through the call.
    [random.sample] belongs to Python's library: it is a parameter of the
    model, with its documented contract where a proof needs it. *)

Module Selector.
Import Time PyStr.

Local Open Scope string_scope.
Local Open Scope Z_scope.

(** A candidate, with the fields the selector reads. *)
Record Entry := {
  arxiv_id : string;
  title : string;
  published_utc : option datetime;
  educational : bool
}.

(** The body of [for entry in candidates], on the pair of
    [non_educational] and [educational_pool]. *)
Definition classify (acc : list Entry * list Entry) (entry : Entry)
    : list Entry * list Entry :=
  let '(non_educational, educational_pool) := acc in
  if educational entry
  then (non_educational, (educational_pool ++ [entry])%list)
  else ((non_educational ++ [entry])%list, educational_pool).

(** [not educational_pool] *)
Definition no_entries (entries : list Entry) : bool :=
  match entries with [] => true | _ => false end.

Section Sampling.

(** The states of the generator of the [random] module, and
    [random.sample(population, k)] on it: the sample, and the state the
    generator is left in. *)
Context {generator : Type}.
Variable random_sample : generator -> list Entry -> nat -> list Entry * generator.

Definition split_recent_and_educational
    (candidates : list Entry) (max_recent_items max_educational_items : Z)
    (g : generator) : (list Entry * list Entry) * generator :=
  let '(non_educational, educational_pool) := foldl classify ([], []) candidates in
  let recent_entries := slice_to non_educational (Z.max max_recent_items 0) in
  let educational_limit := Z.max max_educational_items 0 in
  if (educational_limit =? 0) || no_entries educational_pool then
    ((recent_entries, []), g)
  else if Z.of_nat (length educational_pool) <=? educational_limit then
    ((recent_entries, educational_pool), g)
  else
    let '(sample, g) := random_sample g educational_pool (Z.to_nat educational_limit) in
    ((recent_entries, sample), g).

(** The two pools. *)
Definition educational_pool_of (candidates : list Entry) : list Entry :=
  filter (fun entry => educational entry = true) candidates.

Definition non_educational_of (candidates : list Entry) : list Entry :=
  filter (fun entry => educational entry = false) candidates.

Lemma classify_pools candidates : forall non_educational educational_pool,
  foldl classify (non_educational, educational_pool) candidates
  = ((non_educational ++ non_educational_of candidates)%list,
     (educational_pool ++ educational_pool_of candidates)%list).
Proof.
  unfold non_educational_of, educational_pool_of.
  induction candidates as [|entry candidates IH]; intros non_educational educational_pool.
  - cbn [foldl]. by rewrite !filter_nil, !app_nil_r.
  - cbn [foldl classify]. destruct (educational entry) eqn:Hentry; rewrite IH.
    + rewrite (filter_cons_True (fun entry => educational entry = true) entry) by done.
      rewrite filter_cons_False by congruence. by rewrite <- app_assoc.
    + rewrite (filter_cons_True (fun entry => educational entry = false) entry) by done.
      rewrite filter_cons_False by congruence. by rewrite <- app_assoc.
Qed.

(** The partition, by cases on the cap and the size of the pool. *)
Lemma split_recent_and_educational_cases candidates max_recent_items cap g :
  let pool := educational_pool_of candidates in
  let recent := slice_to (non_educational_of candidates) (Z.max max_recent_items 0) in
  split_recent_and_educational candidates max_recent_items cap g
  = if decide (cap <= 0 \/ pool = []) then ((recent, []), g)
    else if decide (Z.of_nat (length pool) <= cap) then ((recent, pool), g)
    else ((recent, (random_sample g pool (Z.to_nat cap)).1),
          (random_sample g pool (Z.to_nat cap)).2).
Proof.
  intros pool recent. subst pool recent. unfold split_recent_and_educational.
  rewrite classify_pools. cbn [app].
  generalize (educational_pool_of candidates). intros pool.
  destruct (Z.eqb_spec (Z.max cap 0) 0) as [Hzero|Hpos]; cbn [orb].
  { rewrite decide_True; [done | left; lia]. }
  destruct (no_entries pool) eqn:Hpool.
  { rewrite decide_True; [done | right; by destruct pool]. }
  rewrite decide_False by (intros [?|?]; [lia | by subst]).
  rewrite Z.max_l by lia.
  destruct (Z.leb_spec (Z.of_nat (length pool)) cap).
  - by rewrite decide_True.
  - rewrite decide_False by lia. by destruct (random_sample g pool (Z.to_nat cap)).
Qed.

End Sampling.

(** The contract of [random.sample(population, k)] for
    [0 <= k <= len(population)]: a list of [k] elements taken at distinct
    positions of the population, in any order. *)
Definition samples_without_replacement {generator : Type}
    (random_sample : generator -> list Entry -> nat -> list Entry * generator) : Prop :=
  forall g population k,
    (k <= length population)%nat ->
    length (random_sample g population k).1 = k /\
    (random_sample g population k).1 ⊆+ population.

(** A sampler to compute with: the generator is a counter, the sample the
    first [k] elements of the population rotated by it. *)
Definition rotating_sample (g : nat) (population : list Entry) (k : nat)
    : list Entry * nat :=
  (take k (rotate g population), S g).

Lemma rotating_sample_without_replacement : samples_without_replacement rotating_sample.
Proof.
  intros g population k Hk. cbn [rotating_sample fst]. split.
  - rewrite length_take, length_rotate. lia.
  - etrans; [apply sublist_submseteq, sublist_take|].
    unfold rotate. rewrite Permutation_app_comm. by rewrite take_drop.
Qed.

Definition paper_a : Entry :=
  {| arxiv_id := "2401.00001v1"; title := "A survey of packing";
     published_utc := Some 1704067200000000; educational := true |}.
Definition paper_b : Entry :=
  {| arxiv_id := "2401.00002v1"; title := "A tutorial on ledgers";
     published_utc := Some 1704067100000000; educational := true |}.
Definition paper_c : Entry :=
  {| arxiv_id := "2401.00003v1"; title := "Faster cutoffs";
     published_utc := Some 1704067000000000; educational := false |}.

Example split_whole_pool :
  split_recent_and_educational rotating_sample [paper_a; paper_c; paper_b] 5 2 0%nat
  = (([paper_c], [paper_a; paper_b]), 0%nat).
Proof. reflexivity. Qed.

Example split_no_educational :
  split_recent_and_educational rotating_sample [paper_a; paper_c; paper_b] 5 0 0%nat
  = (([paper_c], []), 0%nat).
Proof. reflexivity. Qed.

Lemma submseteq_NoDup (out pool : list Entry) : out ⊆+ pool -> NoDup pool -> NoDup out.
Proof.
  intros (middle & Hperm & Hsub)%submseteq_sublist_r Hpool.
  rewrite Hperm. by eapply sublist_NoDup.
Qed.

(** C8, as stated, fails: the pool may hold an entry more than once, the
    selector removes no repetition, and a sample taken at distinct positions
    of such a pool can repeat the entry.  From a pool of three equal entries
    every sample of two that meets the contract of [random.sample] is the
    entry twice. *)
Lemma educational_sample_repeats_entry :
  let candidates := [paper_a; paper_a; paper_a] in
  let output :=
    (split_recent_and_educational rotating_sample candidates 5 2 0%nat).1.2 in
  educational_pool_of candidates = candidates /\
  output = [paper_a; paper_a] /\
  ~ NoDup output /\
  (forall (generator : Type)
          (random_sample : generator -> list Entry -> nat -> list Entry * generator),
     samples_without_replacement random_sample ->
     forall g, (split_recent_and_educational random_sample candidates 5 2 g).1.2
               = [paper_a; paper_a]).
Proof.
  cbv zeta. split_and!.
  - reflexivity.
  - reflexivity.
  - intros Hnodup. apply NoDup_cons in Hnodup as [Hfresh _]. apply Hfresh. left.
  - intros generator random_sample Hsample g.
    rewrite split_recent_and_educational_cases.
    change (educational_pool_of [paper_a; paper_a; paper_a])
      with [paper_a; paper_a; paper_a].
    rewrite decide_False by (intros [?|?]; [lia | discriminate]).
    rewrite decide_False by (cbn [length]; lia).
    cbn [fst snd].
    destruct (Hsample g [paper_a; paper_a; paper_a] (Z.to_nat 2)) as [Hlength Hsub];
      [cbn [length]; lia|].
    destruct (random_sample g [paper_a; paper_a; paper_a] (Z.to_nat 2)).1
      as [|first [|second [|third rest]]] eqn:Hdrawn; try discriminate Hlength.
    assert (Hpool : forall entry, entry ∈ [first; second] -> entry = paper_a).
    { intros entry Hentry. eapply elem_of_submseteq in Hentry; [|exact Hsub].
      repeat (apply elem_of_cons in Hentry as [-> | Hentry]); try done.
      by apply elem_of_nil in Hentry. }
    rewrite (Hpool first), (Hpool second); [done | |].
    + apply elem_of_cons. right. apply elem_of_cons. by left.
    + apply elem_of_cons. by left.
Qed.

(** C8, amended. Under the contract of [random.sample], for the educational
    pool [pool] of the candidates and the cap [cap]: the educational output
    is empty if [cap] is 0 (or less) or [pool] is empty; it is [pool], in its
    order, if the size of [pool] is at most [cap]; and if the size of [pool]
    exceeds [cap] it has exactly [cap] entries, taken at distinct positions
    of [pool], hence without duplicates when [pool] has none. *)
Theorem educational_output_spec {generator : Type}
    (random_sample : generator -> list Entry -> nat -> list Entry * generator)
    (candidates : list Entry) (max_recent_items cap : Z) (g : generator) :
  samples_without_replacement random_sample ->
  let pool := educational_pool_of candidates in
  let output :=
    (split_recent_and_educational random_sample candidates max_recent_items cap g).1.2 in
  (cap <= 0 \/ pool = [] -> output = []) /\
  (Z.of_nat (length pool) <= cap -> output = pool) /\
  (0 < cap < Z.of_nat (length pool) ->
     Z.of_nat (length output) = cap /\ output ⊆+ pool /\ (NoDup pool -> NoDup output)).
Proof.
  intros Hsample pool output. subst output.
  rewrite split_recent_and_educational_cases. fold pool. split_and!.
  - intros Hnone. by rewrite decide_True.
  - intros Hfits. case_decide as Hnone; cbn [fst snd].
    + destruct Hnone as [Hcap|Hpool]; [|by rewrite Hpool].
      destruct pool; [done | cbn [length] in Hfits; lia].
    + by rewrite decide_True.
  - intros Hmore. rewrite decide_False, decide_False; cbn [fst snd]; [|lia|].
    2:{ intros [?|Hpool]; [lia|]. rewrite Hpool in Hmore. cbn [length] in Hmore. lia. }
    destruct (Hsample g pool (Z.to_nat cap)) as [Hlength Hsub]; [lia|].
    split_and!; [lia | done | by apply submseteq_NoDup].
Qed.

Lemma educational_output_spec_witness :
  let pool := educational_pool_of [paper_a; paper_c; paper_b] in
  let output :=
    (split_recent_and_educational rotating_sample [paper_a; paper_c; paper_b] 5 1 1%nat).1.2 in
  (1 <= 0 \/ pool = [] -> output = []) /\
  (Z.of_nat (length pool) <= 1 -> output = pool) /\
  (0 < 1 < Z.of_nat (length pool) ->
     Z.of_nat (length output) = 1 /\ output ⊆+ pool /\ (NoDup pool -> NoDup output)).
Proof.
  exact (educational_output_spec rotating_sample [paper_a; paper_c; paper_b] 5 1 1%nat
           rotating_sample_without_replacement).
Defined.

(** *** The call

    [def split_recent_and_educational(candidates, *, max_recent_items,
    max_educational_items)]: one parameter that takes a positional or a
    keyword argument and two keyword-only parameters, none with a default.
    A caller passes values of its choice by position and by keyword; the
    values here are a list of entries, an integer, and a random source, a
    [random.Random] of the caller. *)

Inductive value {generator : Type} :=
| Entries (entries : list Entry)
| Number (n : Z)
| RandomSource (rng : generator).

Arguments value : clear implicits.

(** What a call does: it returns the two lists or raises [TypeError]. *)
Inductive call_outcome :=
| Returns (recent_entries educational_entries : list Entry)
| RaisesTypeError.

Definition parameter_names : list string :=
  ["candidates"; "max_recent_items"; "max_educational_items"].

(** The positional arguments [args] and the keyword arguments [kwargs] of a
    call as the parameters receive them; [None] where Python raises
    [TypeError]: a
    keyword that names no parameter, a second positional argument,
    [candidates] given twice, or a parameter left without argument. *)
Definition bind_arguments {generator : Type}
    (args : list (value generator)) (kwargs : gmap string (value generator))
    : option (value generator * value generator * value generator) :=
  if bool_decide (map_Forall (fun name _ => name ∈ parameter_names) kwargs) then
    match args, kwargs !! "candidates" with
    | [], Some candidates | [candidates], None =>
        match kwargs !! "max_recent_items", kwargs !! "max_educational_items" with
        | Some max_recent_items, Some max_educational_items =>
            Some (candidates, max_recent_items, max_educational_items)
        | _, _ => None
        end
    | _, _ => None
    end
  else None.

(** The call: the body runs on the bound arguments.  [for entry in
    candidates] raises [TypeError] on what is no list, and [max(..., 0)] on
    what is no number, before anything is drawn. *)
Definition call_split_recent_and_educational {generator : Type}
    (random_sample : generator -> list Entry -> nat -> list Entry * generator)
    (args : list (value generator)) (kwargs : gmap string (value generator))
    (g : generator) : call_outcome * generator :=
  match bind_arguments args kwargs with
  | Some (Entries candidates, Number max_recent_items, Number max_educational_items) =>
      let '((recent_entries, educational_entries), g) :=
        split_recent_and_educational random_sample candidates
          max_recent_items max_educational_items g in
      (Returns recent_entries educational_entries, g)
  | _ => (RaisesTypeError, g)
  end.

Example call_with_keywords :
  call_split_recent_and_educational rotating_sample []
    {[ "candidates" := Entries [paper_a; paper_c; paper_b];
       "max_recent_items" := Number 5; "max_educational_items" := Number 1 ]} 1%nat
  = (Returns [paper_c] [paper_b], 2%nat) /\
  call_split_recent_and_educational rotating_sample [Entries [paper_a; paper_c; paper_b]]
    {[ "max_recent_items" := Number 5; "max_educational_items" := Number 2 ]} 1%nat
  = (Returns [paper_c] [paper_a; paper_b], 1%nat).
Proof. split; vm_compute; reflexivity. Qed.

Example call_refused :
  call_split_recent_and_educational rotating_sample
    [Entries [paper_a]; Number 5; Number 1] ∅ 0%nat = (RaisesTypeError, 0%nat) /\
  call_split_recent_and_educational rotating_sample [Entries [paper_a]]
    {[ "max_recent_items" := Number 5 ]} 0%nat = (RaisesTypeError, 0%nat) /\
  call_split_recent_and_educational rotating_sample [Number 3]
    {[ "max_recent_items" := Number 5; "max_educational_items" := Number 1 ]} 0%nat
  = (RaisesTypeError, 0%nat).
Proof. split_and!; vm_compute; reflexivity. Qed.

Lemma bind_arguments_spec {generator : Type}
    (args : list (value generator)) (kwargs : gmap string (value generator))
    candidates max_recent_items max_educational_items :
  bind_arguments args kwargs = Some (candidates, max_recent_items, max_educational_items) ->
  (forall name, is_Some (kwargs !! name) -> name ∈ parameter_names) /\
  (args = [] /\ kwargs !! "candidates" = Some candidates \/
   args = [candidates] /\ kwargs !! "candidates" = None) /\
  kwargs !! "max_recent_items" = Some max_recent_items /\
  kwargs !! "max_educational_items" = Some max_educational_items.
Proof.
  unfold bind_arguments. case_bool_decide as Hnames; [|done].
  assert (Hkeys : forall name, is_Some (kwargs !! name) -> name ∈ parameter_names).
  { intros name [v Hv]. exact (Hnames name v Hv). }
  destruct args as [|first [|second args]];
    destruct (kwargs !! "candidates") as [given|]; try done;
    destruct (kwargs !! "max_recent_items") as [recent|]; try done;
    destruct (kwargs !! "max_educational_items") as [edu|]; try done;
    intros [= <- <- <-]; split_and!; auto.
Qed.

(** A call that returns was given a list of entries and two numbers, and
    nothing else. *)
Lemma call_returns {generator : Type}
    (random_sample : generator -> list Entry -> nat -> list Entry * generator)
    (args : list (value generator)) (kwargs : gmap string (value generator))
    (g g' : generator) recent_entries educational_entries :
  call_split_recent_and_educational random_sample args kwargs g
  = (Returns recent_entries educational_entries, g') ->
  exists candidates max_recent_items cap,
    bind_arguments args kwargs
    = Some (Entries candidates, Number max_recent_items, Number cap) /\
    split_recent_and_educational random_sample candidates max_recent_items cap g
    = ((recent_entries, educational_entries), g').
Proof.
  unfold call_split_recent_and_educational.
  destruct (bind_arguments args kwargs) as [[[[candidates| |] [|max_recent_items|]] [|cap|]]|];
    try done.
  destruct (split_recent_and_educational random_sample candidates max_recent_items cap g)
    as [[recent educational] g1] eqn:Hsplit.
  intros [= <- <- <-]. by exists candidates, max_recent_items, cap.
Qed.

Lemma bound_without_random_source {generator : Type}
    (args : list (value generator)) (kwargs : gmap string (value generator))
    candidates max_recent_items cap :
  bind_arguments args kwargs
  = Some (Entries candidates, Number max_recent_items, Number cap) ->
  forall rng,
    (RandomSource rng ∉ args) /\ forall name, kwargs !! name <> Some (RandomSource rng).
Proof.
  intros (Hkeys & Hcandidates & Hrecent & Hcap)%bind_arguments_spec rng. split.
  - destruct Hcandidates as [[-> _]|[-> _]].
    + apply not_elem_of_nil.
    + by intros [=]%list_elem_of_singleton.
  - intros name Hname. assert (Hin : name ∈ parameter_names) by (apply Hkeys; eauto).
    unfold parameter_names in Hin.
    repeat (apply elem_of_cons in Hin as [->|Hin]); [| | |by apply elem_of_nil in Hin].
    + destruct Hcandidates as [[_ Hgiven]|[_ Hgiven]]; congruence.
    + congruence.
    + congruence.
Qed.

(** C6, as stated, fails: the operation has no parameter for a random
    source.  A call that passes one under a keyword, or a seed, raises
    [TypeError], and no call that passes a random source, by position or
    under any keyword, returns. *)
Lemma split_takes_no_random_source :
  call_split_recent_and_educational rotating_sample [Entries [paper_a; paper_b]]
    {[ "max_recent_items" := Number 5; "max_educational_items" := Number 1;
       "rng" := RandomSource 7%nat ]} 0%nat
  = (RaisesTypeError, 0%nat) /\
  call_split_recent_and_educational rotating_sample [Entries [paper_a; paper_b]]
    {[ "max_recent_items" := Number 5; "max_educational_items" := Number 1;
       "seed" := Number 7 ]} 0%nat
  = (RaisesTypeError, 0%nat) /\
  ~ exists (args : list (value nat)) (kwargs : gmap string (value nat)) (g rng : nat),
      (RandomSource rng ∈ args \/ exists name, kwargs !! name = Some (RandomSource rng)) /\
      (call_split_recent_and_educational rotating_sample args kwargs g).1 <> RaisesTypeError.
Proof.
  split_and!; [vm_compute; reflexivity | vm_compute; reflexivity |].
  intros (args & kwargs & g & rng & Hpassed & Hreturns).
  destruct (call_split_recent_and_educational rotating_sample args kwargs g)
    as [[recent_entries educational_entries|] g'] eqn:Hcall; [|done].
  apply call_returns in Hcall as (candidates & max_recent_items & cap & Hbound & _).
  destruct (bound_without_random_source _ _ _ _ _ Hbound rng) as [Hargs Hkwargs].
  destruct Hpassed as [Hin|[name Hname]]; [done | by apply (Hkwargs name)].
Qed.

(** C6, amended. The operation takes the candidates and the two caps and
    nothing else: a call returns only when it passes at most one positional
    argument, no keyword besides the names of the three parameters, and no
    random source anywhere; a call that raises draws nothing.  The sample
    comes from the generator of the [random] module: the outputs are
    determined by the candidates, the caps and the state [g] of that
    generator.  The recent output does not depend on [g]; when the cap is 0
    or the pool has at most [cap] entries the educational output does not
    depend on it either and the generator is left as it was; otherwise the
    educational output is the sample drawn from the state [g]. *)
Theorem split_call_spec {generator : Type}
    (random_sample : generator -> list Entry -> nat -> list Entry * generator)
    (args : list (value generator)) (kwargs : gmap string (value generator))
    (g : generator) :
  let result := call_split_recent_and_educational random_sample args kwargs g in
  match result.1 with
  | RaisesTypeError => result.2 = g
  | Returns recent_entries educational_entries =>
      (length args <= 1)%nat /\
      (forall name, is_Some (kwargs !! name) -> name ∈ parameter_names) /\
      (forall rng,
         (RandomSource rng ∉ args) /\ forall name, kwargs !! name <> Some (RandomSource rng)) /\
      exists candidates max_recent_items cap,
        bind_arguments args kwargs
        = Some (Entries candidates, Number max_recent_items, Number cap) /\
        let pool := educational_pool_of candidates in
        recent_entries
        = slice_to (non_educational_of candidates) (Z.max max_recent_items 0) /\
        (cap <= 0 -> educational_entries = [] /\ result.2 = g) /\
        (0 < cap -> Z.of_nat (length pool) <= cap ->
           educational_entries = pool /\ result.2 = g) /\
        (0 < cap < Z.of_nat (length pool) ->
           educational_entries = (random_sample g pool (Z.to_nat cap)).1 /\
           result.2 = (random_sample g pool (Z.to_nat cap)).2)
  end.
Proof.
  cbv zeta.
  destruct (call_split_recent_and_educational random_sample args kwargs g)
    as [[recent_entries educational_entries|] g'] eqn:Hcall; cbn [fst snd].
  2:{ unfold call_split_recent_and_educational in Hcall.
      destruct (bind_arguments args kwargs)
        as [[[[candidates| |] [|max_recent_items|]] [|cap|]]|]; try by inversion Hcall.
      by destruct (split_recent_and_educational random_sample candidates max_recent_items cap g)
        as [[? ?] ?]. }
  apply call_returns in Hcall as (candidates & max_recent_items & cap & Hbound & Hsplit).
  pose proof (bind_arguments_spec _ _ _ _ _ Hbound) as (Hkeys & Hcandidates & _ & _).
  split_and!.
  - by destruct Hcandidates as [[-> _]|[-> _]]; cbn [length]; lia.
  - done.
  - by eapply bound_without_random_source.
  - exists candidates, max_recent_items, cap. split; [done|]. cbv zeta.
    rewrite split_recent_and_educational_cases in Hsplit.
    set (pool := educational_pool_of candidates) in *.
    destruct (decide (cap <= 0 \/ pool = [])) as [Hnone|Hsome].
    { injection Hsplit as <- <- <-. split_and!; [done | done | | ].
      - intros Hpos Hfits. destruct Hnone as [?|Hpool]; [lia | by rewrite Hpool].
      - intros [Hpos Hmore]. destruct Hnone as [?|Hpool]; [lia|].
        rewrite Hpool in Hmore. cbn [length] in Hmore. lia. }
    destruct (decide (Z.of_nat (length pool) <= cap)) as [Hfits|Hmore];
      injection Hsplit as <- <- <-; split_and!; try done.
    + intros Hcap. exfalso. apply Hsome. by left.
    + lia.
    + intros Hcap. exfalso. apply Hsome. by left.
Qed.

End Selector.

(** ** One run ([src/main.py], [run], and [src/discord_webhook.py])

    The run is followed through its effects on the outside: the state file
    and the webhook.  What the collaborators answer, and what the steps that
    touch neither compute, are parameters of the model: each may raise, and
    the run stops at the first that does. *)

Module Run.
Import PyStr LedgerFile.

Local Open Scope Z_scope.

(** A step of the run: it may change the outside, and returns or raises. *)
Definition step (A : Type) : Type := world -> result A * world.

Definition ret {A} (a : A) : step A := fun w => (Ok a, w).

Definition raise {A} (e : exn) : step A := fun w => (Raise e, w).

(** A step that leaves the outside alone. *)
Definition pure {A} (r : result A) : step A := fun w => (r, w).

Definition bind {A B} (c : step A) (k : A -> step B) : step B :=
  fun w =>
    match c w with
    | (Ok a, w') => k a w'
    | (Raise e, w') => (Raise e, w')
    end.

Notation "'do' x <- c ; k" := (bind c (fun x => k))
  (at level 10, x name, c at level 100, k at level 200).

Section OneRun.

(** The mapping read from [config.yaml], the settings taken from it, a
    topic, and what the topic loop has gathered so far (the results per
    topic, the ids selected in this run, the newest publication time per
    topic). *)
Context {Yaml Config Topic Gathered : Type}.

(** [load_config(DEFAULT_CONFIG_PATH)] *)
Variable load_config : result Yaml.
(** [os.environ.get("DISCORD_WEBHOOK_URL")] *)
Variable webhook_url : option string.
(** The settings, read with [int(...)], [float(...)] and [str(...)]. *)
Variable read_settings : Yaml -> result Config.
(** [config.get("topics", [])] *)
Variable topics : Config -> list Topic.
(** [discord_conf.get("max_content_length", 2000)] *)
Variable max_content_length : Config -> Z.
(** [get_last_success_utc(state)], the cutoffs and [sent_id_set(state)]:
    where the topic loop starts from. *)
Variable start : Config -> dict -> result Gathered.
(** Turn [idx] of the topic loop: the query, the fetch, the parse and the
    selection. *)
Variable process_topic : Config -> nat -> Gathered -> Topic -> result Gathered.
(** [build_digest_blocks] and [discord_client.build_messages]. *)
Variable build_messages : Config -> Gathered -> result (list str).
(** The status code the webhook answers to a content, after what the run
    has done so far, or the exception of the request. *)
Variable post : list event -> str -> result Z.
(** [append_sent_ids] and [update_success_metadata] on the loaded state. *)
Variable record_success : Config -> dict -> Gathered -> result dict.

(** [DiscordWebhookClient.send] *)
Definition send (max_content_length : Z) (content : str) : step unit :=
  if is_empty content then ret tt
  else if len content >? max_content_length then raise DiscordWebhookError
  else fun w =>
    match post (events w) content with
    | Raise e => (Raise e, w)
    | Ok status_code =>
        if (status_code =? 200) || (status_code =? 204)
        then (Ok tt, {| file := file w; events := events w ++ [Posted content] |})
        else (Raise DiscordWebhookError, w)
    end.

(** [DiscordWebhookClient.send_messages] *)
Fixpoint send_messages (max_content_length : Z) (messages : list str) : step Z :=
  match messages with
  | [] => ret 0
  | content :: messages =>
      do _ <- send max_content_length content;
      do sent_count <- send_messages max_content_length messages;
      ret (1 + sent_count)
  end.

(** The topic loop, [for idx, topic in enumerate(topics)], from turn [idx]
    on. *)
Fixpoint process_topics (config : Config) (idx : nat) (gathered : Gathered)
    (todo : list Topic) : result Gathered :=
  match todo with
  | [] => Ok gathered
  | topic :: todo =>
      match process_topic config idx gathered topic with
      | Ok gathered => process_topics config (S idx) gathered todo
      | Raise e => Raise e
      end
  end.

Definition has_webhook_url : bool :=
  match webhook_url with
  | Some url => negb (String.eqb url EmptyString)
  | None => false
  end.

(** [run] *)
Definition run : step Z :=
  do yaml <- pure load_config;
  do _ <- (if has_webhook_url then ret tt else raise RuntimeError);
  do config <- pure (read_settings yaml);
  do state <- load_state;
  do gathered <- pure (start config state);
  do _ <- (match topics config with [] => raise ValueError | _ => ret tt end);
  do gathered <- pure (process_topics config 0 gathered (topics config));
  do messages <- pure (build_messages config gathered);
  do sent_message_count <- send_messages (max_content_length config) messages;
  do state <- pure (record_success config state gathered);
  do _ <- (fun w => (Ok tt, save_state state w));
  ret 0.

(** The messages that [send] does not skip. *)
Definition delivered (messages : list str) : list str :=
  filter (fun content => is_empty content = false) messages.

Definition posts (contents : list str) : list event := Posted <$> contents.

Lemma send_spec limit content w outcome w' :
  send limit content w = (outcome, w') ->
  file w' = file w /\
  match outcome with
  | Ok _ => events w' = events w ++ posts (delivered [content])
  | Raise _ => events w' = events w
  end.
Proof.
  unfold send, delivered.
  destruct (is_empty content) eqn:Hempty.
  { intros [= <- <-]. rewrite filter_cons_False, filter_nil by congruence.
    cbn. by rewrite app_nil_r. }
  rewrite filter_cons_True, filter_nil by done.
  destruct (len content >? limit); [by intros [= <- <-]|].
  destruct (post (events w) content) as [status_code|e]; [|by intros [= <- <-]].
  by destruct ((status_code =? 200) || (status_code =? 204)); intros [= <- <-].
Qed.

(** [send_messages] never touches the state file; when it returns, every
    message that is not empty has been posted, in order. *)
Lemma send_messages_spec limit messages : forall w outcome w',
  send_messages limit messages w = (outcome, w') ->
  file w' = file w /\
  match outcome with
  | Ok _ => events w' = events w ++ posts (delivered messages)
  | Raise _ => exists posted, events w' = events w ++ posts posted
  end.
Proof.
  induction messages as [|content messages IH]; intros w outcome w';
    cbn [send_messages]; unfold bind, ret.
  - intros [= <- <-]. cbn. by rewrite app_nil_r.
  - destruct (send limit content w) as [[[]|e] w1] eqn:Hsend;
      apply send_spec in Hsend as [Hfile Hevents].
    + destruct (send_messages limit messages w1) as [[sent_count|e] w2] eqn:Hrest;
        apply IH in Hrest as [Hfile' Hevents']; intros [= <- <-].
      * split; [congruence|]. rewrite Hevents', Hevents, <- app_assoc. f_equal.
        unfold posts, delivered. rewrite <- fmap_app. f_equal.
        by rewrite (filter_app _ [content] messages).
      * split; [congruence|]. destruct Hevents' as [posted Hposted].
        exists (delivered [content] ++ posted)%list.
        rewrite Hposted, Hevents, <- app_assoc. unfold posts. by rewrite fmap_app.
    + intros [= <- <-]. split; [done|]. exists []. rewrite Hevents. cbn. by rewrite app_nil_r.
Qed.

(** The run from the loaded state on: it writes the state file once, at
    its end, when every step has gone through and every message has been
    posted; it leaves the file alone when a step raises. *)
Lemma run_after_load (config : Config) (state : dict) (w : world) outcome w' :
  (do gathered <- pure (start config state);
   do _ <- (match topics config with [] => raise ValueError | _ => ret tt end);
   do gathered <- pure (process_topics config 0 gathered (topics config));
   do messages <- pure (build_messages config gathered);
   do sent_message_count <- send_messages (max_content_length config) messages;
   do state <- pure (record_success config state gathered);
   do _ <- (fun w => (Ok tt, save_state state w));
   ret 0) w = (outcome, w') ->
  match outcome with
  | Ok _ =>
      exists gathered messages state',
        build_messages config gathered = Ok messages /\
        events w' = events w ++ posts (delivered messages) ++ [Saved state'] /\
        file w' = Some (Json (Some state'))
  | Raise _ =>
      exists posted, events w' = events w ++ posts posted /\ file w' = file w
  end.
Proof.
  unfold bind, pure, ret, raise.
  assert (Hnone : exists posted : list str,
             events w = events w ++ posts posted /\ file w = file w).
  { exists []. cbn. by rewrite app_nil_r. }
  destruct (start config state) as [gathered0|e]; [|by intros [= <- <-]].
  destruct (topics config) as [|topic todo] eqn:Htopics; [by intros [= <- <-]|].
  rewrite <- Htopics.
  destruct (process_topics config 0 gathered0 (topics config)) as [gathered|e];
    [|by intros [= <- <-]].
  destruct (build_messages config gathered) as [messages|e] eqn:Hmessages;
    [|by intros [= <- <-]].
  destruct (send_messages (max_content_length config) messages w)
    as [[sent_count|e] w1] eqn:Hsend;
    apply send_messages_spec in Hsend as [Hfile Hevents].
  - destruct (record_success config state gathered) as [state'|e]; intros [= <- <-].
    + exists gathered, messages, state'. split_and!; [done| |done].
      cbn [save_state events]. by rewrite Hevents, <- app_assoc.
    + exists (delivered messages). by rewrite Hevents, Hfile.
  - intros [= <- <-]. destruct Hevents as [posted Hposted].
    exists posted. by rewrite Hposted, Hfile.
Qed.

(** C9, amended. A run that finds the state file writes it at most once:
    when the run returns, the write is its last effect, after the posting of
    every message; when a step raises, the file is as the run found it.  A
    run that finds no state file either raises before loading and leaves
    none, or creates the file with the default state when loading, before
    anything is fetched or posted: if a later step raises, that default file
    stays behind, and if the run returns, the final commit is the second
    write. *)
Theorem run_ledger_writes (w : world) :
  match file w, (run w).1 with
  | Some _, Ok _ =>
      exists config gathered messages state',
        build_messages config gathered = Ok messages /\
        events (run w).2 = events w ++ posts (delivered messages) ++ [Saved state'] /\
        file (run w).2 = Some (Json (Some state'))
  | Some _, Raise _ =>
      exists posted,
        events (run w).2 = events w ++ posts posted /\
        file (run w).2 = file w
  | None, Ok _ =>
      exists config gathered messages state',
        build_messages config gathered = Ok messages /\
        events (run w).2
        = events w ++ [Saved DEFAULT_STATE] ++ posts (delivered messages) ++ [Saved state'] /\
        file (run w).2 = Some (Json (Some state'))
  | None, Raise _ =>
      (events (run w).2 = events w /\ file (run w).2 = None) \/
      exists posted,
        events (run w).2 = events w ++ [Saved DEFAULT_STATE] ++ posts posted /\
        file (run w).2 = Some (Json (Some DEFAULT_STATE))
  end.
Proof.
  assert (Hnone : exists posted : list str,
             events w = events w ++ posts posted /\ file w = file w).
  { exists []. cbn. by rewrite app_nil_r. }
  destruct (run w) as [outcome w'] eqn:Hrun; cbn [fst snd].
  unfold run in Hrun. unfold bind at 1, pure at 1 in Hrun.
  destruct load_config as [yaml|e].
  2:{ injection Hrun as <- <-. destruct (file w); [done | by left]. }
  unfold bind at 1 in Hrun.
  destruct has_webhook_url; cbn [ret raise] in Hrun.
  2:{ injection Hrun as <- <-. destruct (file w); [done | by left]. }
  unfold bind at 1, pure at 1 in Hrun.
  destruct (read_settings yaml) as [config|e].
  2:{ injection Hrun as <- <-. destruct (file w); [done | by left]. }
  unfold bind at 1 in Hrun. unfold load_state in Hrun.
  destruct (file w) as [[|raw]|] eqn:Hfile.
  - injection Hrun as <- <-. exists []. split; [cbn; by rewrite app_nil_r | done].
  - apply run_after_load in Hrun. destruct outcome as [code|e].
    + destruct Hrun as (gathered & messages & state' & ? & ? & ?).
      by exists config, gathered, messages, state'.
    + destruct Hrun as (posted & ? & ?). exists posted. split; congruence.
  - apply run_after_load in Hrun. cbn [save_state events file] in Hrun.
    destruct outcome as [code|e].
    + destruct Hrun as (gathered & messages & state' & ? & Hevents & ?).
      exists config, gathered, messages, state'. split_and!; [done| |done].
      rewrite Hevents. by rewrite <- !app_assoc.
    + destruct Hrun as (posted & Hevents & ?). right. exists posted.
      split; [|done]. rewrite Hevents. by rewrite <- !app_assoc.
Qed.

End OneRun.

(** A run of a configuration with one topic that finds no state file; the
    webhook accepts what it is sent, and the fetch of the topic succeeds or
    fails with an HTTP error. *)
Definition first_run (fetched : result unit) : step Z :=
  @run unit unit unit unit
    (Ok tt) (Some "https://discord.example/webhook"%string) (fun _ => Ok tt)
    (fun _ => [tt]) (fun _ => 2000)
    (fun _ _ => Ok tt) (fun _ _ _ _ => fetched)
    (fun _ _ => Ok [str_of_string "digest"]) (fun _ _ => Ok 204)
    (fun _ state _ => Ok state).

(** C9, as stated, fails on a first run: the state file is created while
    loading, before anything has been posted, so a fetch that fails leaves a
    file where there was none, and a run that goes through has written the
    file twice. *)
Lemma first_run_writes_when_loading :
  first_run (Raise HTTPError) (World None [])
  = (Raise HTTPError,
     World (Some (Json (Some DEFAULT_STATE))) [Saved DEFAULT_STATE]) /\
  first_run (Ok tt) (World None [])
  = (Ok 0,
     World (Some (Json (Some DEFAULT_STATE)))
       [Saved DEFAULT_STATE; Posted (str_of_string "digest"); Saved DEFAULT_STATE]).
Proof. split; vm_compute; reflexivity. Qed.

End Run.

(** ** The cutoff: what the window always covers *)

Module CutoffFacts.
Import Time.

(** The clamped lookback is at least an hour, and at least the configured
    one. *)
Lemma clamped_lookback_bounds lookback_hours :
  0 < timedelta_hours 1 <= timedelta_hours (Z.max 1 lookback_hours) /\
  timedelta_hours lookback_hours <= timedelta_hours (Z.max 1 lookback_hours).
Proof.
  split_and!; [reflexivity | |]; apply timedelta_hours_mono; lia.
Qed.

(** The cutoff of [compute_cutoff_utc] is at least one hour and at least
    the configured lookback before now, and never after the last success:
    the window reaches back to the last successful run.  It is no earlier
    than that: it is the clamped lookback before now, or the last success
    itself. *)
Theorem compute_cutoff_utc_covers_gap
    (now : datetime) (last_success : option datetime) (lookback_hours : Z) :
  let cutoff := compute_cutoff_utc now last_success lookback_hours in
  cutoff <= now - timedelta_hours 1 /\
  cutoff <= now - timedelta_hours lookback_hours /\
  match last_success with
  | Some last =>
      cutoff <= last /\
      (cutoff = now - timedelta_hours (Z.max 1 lookback_hours) \/ cutoff = last)
  | None => cutoff = now - timedelta_hours (Z.max 1 lookback_hours)
  end.
Proof.
  intros cutoff. subst cutoff.
  pose proof (clamped_lookback_bounds lookback_hours) as Hclamped.
  destruct last_success as [last|].
  - rewrite compute_cutoff_utc_present. lia.
  - rewrite compute_cutoff_utc_absent. lia.
Qed.

(** The cutoff that [run] hands to the selector is the earlier of the state
    cutoff and the recent-window cutoff: it is never after the last success,
    never less than one hour before now, and never after the start of the
    recent window. *)
Theorem candidate_cutoff_utc_covers_both
    (now : datetime) (last_success : option datetime)
    (lookback_hours recent_window_days : Z) :
  let cutoff := candidate_cutoff_utc now last_success lookback_hours recent_window_days in
  cutoff <= now - timedelta_hours 1 /\
  cutoff <= now - timedelta_days recent_window_days /\
  match last_success with Some last => cutoff <= last | None => True end.
Proof.
  intros cutoff. subst cutoff. unfold candidate_cutoff_utc.
  pose proof (clamped_lookback_bounds lookback_hours) as Hclamped.
  destruct last_success as [last|].
  - rewrite compute_cutoff_utc_present. lia.
  - rewrite compute_cutoff_utc_absent. lia.
Qed.

End CutoffFacts.

(** ** Text helpers ([src/util.py], [compact_whitespace] and
    [truncate_text]) *)

Module Text.
Import PyStr.

(** [s.split()]: the maximal runs of characters that are not white space;
    [word] is the current run, read so far, in reverse. *)
Fixpoint split_from (word : str) (s : str) : list str :=
  match s with
  | [] => if is_empty word then [] else [reverse word]
  | c :: rest =>
      if is_space c then
        if is_empty word then split_from [] rest
        else reverse word :: split_from [] rest
      else split_from (c :: word) rest
  end.

Definition split (s : str) : list str := split_from [] s.

(** [sep.join(parts)] *)
Fixpoint join (sep : str) (parts : list str) : str :=
  match parts with
  | [] => []
  | [part] => part
  | part :: parts => part ++ sep ++ join sep parts
  end.

(** [compact_whitespace]; [text or ""] takes [None] as the empty string. *)
Definition compact_whitespace (text : option str) : str :=
  join [space] (split (default [] text)).

(** [truncate_text] *)
Definition truncate_text (text : str) (max_len : Z) : str :=
  if max_len <=? 3 then slice_to text max_len
  else if len text <=? max_len then text
  else rstrip (slice_to text (max_len - 3)) ++ str_of_string "...".

Example compact_whitespace_example :
  compact_whitespace (Some [32; 97; 9; 10; 98; 99; 32; 32; 100; 10]%N)
  = str_of_string "a bc d".
Proof. reflexivity. Qed.

Example truncate_text_examples :
  truncate_text (str_of_string "A survey of packing") 10 = str_of_string "A surve..." /\
  truncate_text (str_of_string "A survey of packing") 11 = str_of_string "A survey..." /\
  truncate_text (str_of_string "abcdef") 3 = str_of_string "abc" /\
  truncate_text (str_of_string "abcdef") (-2) = str_of_string "abcd" /\
  truncate_text (str_of_string "abcdef") 6 = str_of_string "abcdef".
Proof. repeat split. Qed.

(** A word: not empty, and free of white space. *)
Definition word (w : str) : Prop := w <> [] /\ Forall (fun c => is_space c = false) w.

Lemma split_from_words s : forall acc,
  Forall (fun c => is_space c = false) acc ->
  Forall word (split_from acc s).
Proof.
  assert (Hword : forall acc : str, acc <> [] ->
            Forall (fun c => is_space c = false) acc -> word (reverse acc)).
  { intros acc Hne Hacc. split.
    - intros Hnil. apply (f_equal length) in Hnil. rewrite length_reverse in Hnil.
      by destruct acc.
    - rewrite Forall_forall in Hacc. apply Forall_forall.
      intros c Hc. apply Hacc. by apply elem_of_reverse. }
  induction s as [|c rest IH]; intros acc Hacc; cbn [split_from].
  - destruct acc; cbn [is_empty]; [constructor|]. constructor; [by apply Hword | constructor].
  - destruct (is_space c) eqn:Hc.
    + destruct acc; cbn [is_empty]; [by apply IH|].
      constructor; [by apply Hword | by apply IH].
    + apply IH. by constructor.
Qed.

Lemma split_from_word_prefix (w : str) : forall acc s,
  Forall (fun c => is_space c = false) w ->
  split_from acc (w ++ s) = split_from (reverse w ++ acc) s.
Proof.
  induction w as [|c w IH]; intros acc s Hw; [done|].
  apply Forall_cons in Hw as [Hc Hw]. cbn [app split_from]. rewrite Hc.
  rewrite IH by done. by rewrite reverse_cons, <- app_assoc.
Qed.

(** Splitting the join of words gives the words back. *)
Lemma split_join_words words :
  Forall word words -> split (join [space] words) = words.
Proof.
  unfold split. induction 1 as [|w words [Hne Hw] Hwords IH]; [done|].
  assert (Hrev : is_empty (reverse w ++ []) = false).
  { rewrite app_nil_r. apply is_empty_false. intros Hnil.
    apply (f_equal length) in Hnil. rewrite length_reverse in Hnil. by destruct w. }
  destruct words as [|w' words].
  - cbn [join]. rewrite <- (app_nil_r w) at 1.
    rewrite split_from_word_prefix by done. cbn [split_from]. rewrite Hrev.
    by rewrite app_nil_r, reverse_involutive.
  - change (join [space] (w :: w' :: words))
      with (w ++ space :: join [space] (w' :: words)).
    rewrite split_from_word_prefix by done. cbn [split_from].
    rewrite space_is_space, Hrev, IH. by rewrite app_nil_r, reverse_involutive.
Qed.

Lemma content_split_from s : forall acc,
  content (concat (split_from acc s)) = content (reverse acc ++ s).
Proof.
  induction s as [|c rest IH]; intros acc; cbn [split_from].
  - destruct acc; cbn [is_empty concat]; [done|]. by rewrite !app_nil_r.
  - destruct (is_space c) eqn:Hc.
    + rewrite content_app, (content_cons_space c) by done.
      destruct acc; cbn [is_empty concat].
      * by rewrite IH, reverse_nil.
      * by rewrite content_app, IH, reverse_nil.
    + by rewrite IH, reverse_cons, <- app_assoc.
Qed.

Lemma content_join_space words : content (join [space] words) = content (concat words).
Proof.
  induction words as [|w words IH]; [done|].
  destruct words as [|w' words].
  - cbn [join concat]. by rewrite app_nil_r.
  - change (join [space] (w :: w' :: words))
      with (w ++ space :: join [space] (w' :: words)).
    cbn [concat] in *. by rewrite !content_app, content_cons_space, IH, content_app.
Qed.

(** [compact_whitespace] keeps the characters that are not white space, in
    order; it gives the empty string for [None] and for a text of white
    space only; and compacting a compacted text changes nothing. *)
Theorem compact_whitespace_normalizes (text : option str) :
  content (compact_whitespace text) = content (default [] text) /\
  (content (default [] text) = [] -> compact_whitespace text = []) /\
  compact_whitespace (Some (compact_whitespace text)) = compact_whitespace text.
Proof.
  unfold compact_whitespace. cbn [from_option id].
  set (s := default [] text).
  pose proof (split_from_words s [] ltac:(constructor)) as Hwords. fold (split s) in Hwords.
  assert (Hcontent : content (join [space] (split s)) = content s).
  { rewrite content_join_space. unfold split. by rewrite content_split_from, reverse_nil. }
  split_and!; [done| |by rewrite split_join_words].
  intros Hblank. destruct (split s) as [|w words] eqn:Hsplit; [done|].
  exfalso. apply Forall_cons in Hwords as [[Hne Hw] _].
  rewrite Hblank, content_join_space in Hcontent. cbn [concat] in Hcontent.
  rewrite content_app in Hcontent. apply app_eq_nil in Hcontent as [Hcw _].
  destruct w as [|c w]; [done|]. apply Forall_cons in Hw as [Hc _].
  unfold content in Hcw. by rewrite filter_cons_True in Hcw.
Qed.

(** The result of [truncate_text] is never longer than the text; for a
    bound that is not negative it is never longer than the bound, and it is
    the text itself when the text is within the bound. *)
Theorem truncate_text_bounded (text : str) (max_len : Z) :
  len (truncate_text text max_len) <= len text /\
  (0 <= max_len ->
     len (truncate_text text max_len) <= max_len /\
     (len text <= max_len -> truncate_text text max_len = text)).
Proof.
  unfold truncate_text.
  destruct (Z.leb_spec max_len 3) as [Hsmall|Hbig].
  - split.
    + unfold slice_to, len. rewrite length_take. lia.
    + intros Hmax. rewrite slice_to_take by done. split.
      * unfold len. rewrite length_take. lia.
      * intros Hfits. apply take_ge. unfold len in Hfits. lia.
  - destruct (Z.leb_spec (len text) max_len) as [Hfits|Hlong].
    + split; [lia|]. by intros _.
    + assert (len (rstrip (slice_to text (max_len - 3)) ++ str_of_string "...") <= max_len)
        as Hbound.
      { rewrite len_app. pose proof (length_rstrip (slice_to text (max_len - 3))) as Hle.
        rewrite slice_to_take in Hle by lia. rewrite length_take in Hle.
        rewrite slice_to_take by lia. unfold len. cbn [str_of_string length]. lia. }
      split; [lia|]. intros _. split; [done | lia].
Qed.

End Text.

(** ** MessagePacker: blank input, input that fits, and the chunks of a
    line *)

Module PackerFacts.
Import PyStr Text Packer.

(** The blocks that the packer does not skip, stripped. *)
Definition clean_blocks (blocks : list str) : list str :=
  filter (fun block => block <> []) (strip <$> blocks).

Lemma place_block_blank max_len st block :
  strip block = [] -> place_block max_len st block = Some st.
Proof. intros Hblank. unfold place_block. by rewrite Hblank. Qed.

(** Blocks that are all empty or white space give no message, whatever the
    bound. *)
Theorem pack_blank_blocks (blocks : list str) (max_len : Z) :
  Forall (fun block => strip block = []) blocks ->
  split_blocks_to_messages blocks max_len = Some [].
Proof.
  intros Hblank. unfold split_blocks_to_messages.
  assert (Hrun : forall st, place_blocks max_len st blocks = Some st).
  { induction Hblank as [|block blocks Hblock _ IH]; intros st; cbn [place_blocks]; [done|].
    rewrite place_block_blank by done. apply IH. }
  by rewrite Hrun.
Qed.

Lemma pack_blank_blocks_witness :
  split_blocks_to_messages [[]; str_of_string "  "; [10; 9]%N] 0 = Some [].
Proof. apply pack_blank_blocks. repeat constructor. Defined.

Lemma join_snoc (sep : str) (parts : list str) (part : str) :
  parts <> [] -> join sep (parts ++ [part]) = join sep parts ++ sep ++ part.
Proof.
  induction parts as [|p parts IH]; [done|]. intros _.
  destruct parts as [|p' parts]; [done|].
  change (join sep ((p :: p' :: parts) ++ [part]))
    with (p ++ sep ++ join sep ((p' :: parts) ++ [part])).
  rewrite IH by done.
  change (join sep (p :: p' :: parts)) with (p ++ sep ++ join sep (p' :: parts)).
  by rewrite <- !app_assoc.
Qed.

Lemma length_join_app (sep : str) (parts more : list str) :
  (length (join sep parts) <= length (join sep (parts ++ more)))%nat.
Proof.
  induction parts as [|p parts IH]; [cbn; lia|].
  destruct parts as [|p' parts].
  - destruct more as [|m more]; [done|]. cbn [app join]. rewrite length_app. lia.
  - change (join sep ((p :: p' :: parts) ++ more))
      with (p ++ sep ++ join sep ((p' :: parts) ++ more)).
    change (join sep (p :: p' :: parts)) with (p ++ sep ++ join sep (p' :: parts)).
    rewrite !length_app. lia.
Qed.

Lemma length_join_last (sep : str) (parts : list str) (part : str) :
  (length part <= length (join sep (parts ++ [part])))%nat.
Proof.
  destruct parts as [|p parts]; [done|].
  rewrite join_snoc by done. rewrite !length_app. lia.
Qed.

Lemma join_nonempty (sep : str) (parts : list str) :
  parts <> [] -> Forall (fun part => part <> []) parts -> join sep parts <> [].
Proof.
  intros Hne Hparts. destruct Hparts as [|p parts Hp _]; [done|].
  destruct parts; cbn [join]; [done|]. by destruct p.
Qed.

Lemma place_blocks_fitting max_len (blocks : list str) : forall placed : list str,
  Forall (fun part => part <> []) placed ->
  len (join separator (placed ++ clean_blocks blocks)) <= max_len ->
  place_blocks max_len ([], join separator placed) blocks
  = Some ([], join separator (placed ++ clean_blocks blocks)).
Proof.
  unfold clean_blocks.
  induction blocks as [|block blocks IH]; intros placed Hplaced Hfits; cbn [place_blocks].
  { by rewrite fmap_nil, filter_nil, app_nil_r. }
  rewrite fmap_cons in *. destruct (decide (strip block = [])) as [Hblank|Hclean].
  - rewrite filter_cons_False in * by (by intros ?).
    rewrite place_block_blank by done. cbn [mbind option_bind]. by apply IH.
  - rewrite filter_cons_True in * by done.
    set (rest := filter (fun block => block <> []) (strip <$> blocks)) in *.
    assert (Hstep : len (join separator (placed ++ [strip block])) <= max_len).
    { pose proof (length_join_app separator (placed ++ [strip block]) rest) as Hle.
      rewrite <- app_assoc in Hle. cbn [app] in Hle. unfold len in *. lia. }
    assert (Hpiece : len (strip block) <= max_len).
    { pose proof (length_join_last separator placed (strip block)). unfold len in *. lia. }
    unfold place_block. apply is_empty_false in Hclean as Hclean'. rewrite Hclean'.
    unfold block_pieces. destruct (Z.gtb_spec (len (strip block)) max_len); [lia|].
    cbn [mbind option_bind place_pieces place_piece].
    destruct placed as [|p placed].
    + cbn [join is_empty]. destruct (Z.leb_spec (len (strip block)) max_len); [|lia].
      cbn [mbind option_bind app]. apply (IH [strip block]); [by constructor | done].
    + pose proof (join_nonempty separator (p :: placed) ltac:(done) Hplaced) as Hcurrent.
      apply is_empty_false in Hcurrent. rewrite Hcurrent.
      rewrite <- join_snoc by done.
      destruct (Z.leb_spec (len (join separator ((p :: placed) ++ [strip block]))) max_len);
        [|lia].
      cbn [mbind option_bind]. rewrite IH.
      * by rewrite <- app_assoc.
      * apply Forall_app. split; [done | by constructor].
      * by rewrite <- app_assoc.
Qed.

(** When the stripped, non-empty blocks joined by blank lines fit within
    the bound, the packer returns that one message: block boundaries are
    kept. *)
Theorem pack_fitting_blocks (blocks : list str) (max_len : Z) :
  clean_blocks blocks <> [] ->
  len (join separator (clean_blocks blocks)) <= max_len ->
  split_blocks_to_messages blocks max_len = Some [join separator (clean_blocks blocks)].
Proof.
  intros Hsome Hfits. unfold split_blocks_to_messages.
  change (@nil char) with (join separator []) at 1.
  rewrite (place_blocks_fitting max_len blocks []) by (done || constructor).
  cbn [app mbind option_bind].
  assert (Hne : join separator (clean_blocks blocks) <> []).
  { apply join_nonempty; [done|]. unfold clean_blocks.
    apply Forall_forall. by intros part [? _]%list_elem_of_filter. }
  apply is_empty_false in Hne. by rewrite Hne.
Qed.

Lemma pack_fitting_blocks_witness :
  split_blocks_to_messages [str_of_string " ab"; []; str_of_string "cd "] 6
  = Some [[97; 98; 10; 10; 99; 100]%N].
Proof.
  apply (pack_fitting_blocks [str_of_string " ab"; []; str_of_string "cd "] 6).
  - vm_compute. discriminate.
  - vm_compute. discriminate.
Defined.

(** For a positive bound [split_long_line] returns at least one chunk;
    every chunk is within the bound; a line within the bound is its own
    single chunk; and the chunks of a longer line are not empty. *)
Theorem split_long_line_chunks (line : str) (max_len : Z) :
  1 <= max_len ->
  exists chunks,
    split_long_line line max_len = Some chunks /\
    chunks <> [] /\
    Forall (fun chunk => len chunk <= max_len) chunks /\
    (len line <= max_len -> chunks = [line]) /\
    (max_len < len line -> Forall (fun chunk => chunk <> []) chunks).
Proof.
  intros Hpos. unfold split_long_line.
  destruct (Z.leb_spec (len line) max_len) as [Hfit|Hlong].
  - exists [line]. split_and!; [done|done|by repeat constructor|done|lia].
  - destruct (length line) as [|fuel] eqn:Hlength; [unfold len in Hlong; lia|].
    cbn [split_loop]. destruct (Z.gtb_spec (len line) max_len) as [_|]; [|lia].
    destruct (split_step_spec max_len Hpos line Hlong) as (Hgood & Hless & _).
    destruct (split_step line max_len) as [chunk rest]; cbn [fst snd] in *.
    destruct (split_loop_spec max_len Hpos fuel ([] ++ [chunk]) rest) as (out & -> & Hout & _);
      [lia|].
    exists (chunk :: out). split_and!; [done|done| |lia|].
    + constructor; [apply Hgood|]. eapply Forall_impl; [exact Hout|]. by intros c [_ ?].
    + intros _. constructor; [apply Hgood|]. eapply Forall_impl; [exact Hout|].
      by intros c [? _].
Qed.

Lemma split_long_line_chunks_witness :
  exists chunks,
    split_long_line (str_of_string "aaa bbb ccc") 5 = Some chunks /\
    chunks <> [] /\
    Forall (fun chunk => len chunk <= 5) chunks /\
    (len (str_of_string "aaa bbb ccc") <= 5 -> chunks = [str_of_string "aaa bbb ccc"]) /\
    (5 < len (str_of_string "aaa bbb ccc") -> Forall (fun chunk => chunk <> []) chunks).
Proof. apply split_long_line_chunks. lia. Defined.

End PackerFacts.

(** ** The persisted ledger: shape and round trip *)

Module LedgerFileFacts.
Import LedgerFile.

Local Open Scope string_scope.

(** The shape every state in memory has: a list of sent ids, a mapping of
    topics, and a last-success field. *)
Definition shaped (state : dict) : Prop :=
  is_list (state !! "sent_ids") = true /\
  is_dict (state !! "last_max_published_utc_by_topic") = true /\
  is_Some (state !! "last_success_utc").

Lemma default_state_shaped : shaped DEFAULT_STATE.
Proof. split_and!; [done | done | by eexists]. Qed.

Lemma ensure_state_shape_of_shaped (state : dict) :
  shaped state -> ensure_state_shape (Some state) = state.
Proof.
  intros (Hlist & Hdict & [v Hlast]). apply map_eq. intros key.
  rewrite ensure_state_shape_lookup.
  apply is_list_spec in Hlist as [l Hl]. apply is_dict_spec in Hdict as [d Hd].
  case_decide as Hids; [subst key; by rewrite Hl|].
  case_decide as Htopics; [subst key; by rewrite Hd|].
  case_decide as Hsuccess; [subst key; by rewrite Hlast|done].
Qed.

Lemma ensure_state_shape_shaped (raw : option dict) : shaped (ensure_state_shape raw).
Proof.
  destruct raw as [raw|]; [|apply default_state_shaped].
  unfold shaped. rewrite !ensure_state_shape_lookup.
  repeat (case_decide; try done).
  split_and!; [by destruct (raw !! "sent_ids") as [[]|] | | by eexists].
  by destruct (raw !! "last_max_published_utc_by_topic") as [[]|].
Qed.

(** Whatever the file holds, [ensure_state_shape] returns a state of the
    expected shape, and shaping a shaped state changes nothing: the repair
    is idempotent. *)
Theorem ensure_state_shape_idempotent (raw : option dict) :
  shaped (ensure_state_shape raw) /\
  ensure_state_shape (Some (ensure_state_shape raw)) = ensure_state_shape raw.
Proof.
  split; [apply ensure_state_shape_shaped|].
  apply ensure_state_shape_of_shaped, ensure_state_shape_shaped.
Qed.

(** A shaped state that is saved and loaded again comes back as it was
    saved, and loading does not write the file again. *)
Theorem save_load_round_trip (state : dict) (w : world) :
  shaped state ->
  load_state (save_state state w) = (Ok state, save_state state w).
Proof.
  intros Hshaped. unfold load_state. cbn [save_state file].
  by rewrite ensure_state_shape_of_shaped.
Qed.

Lemma save_load_round_trip_witness :
  load_state (save_state DEFAULT_STATE (World None []))
  = (Ok DEFAULT_STATE, save_state DEFAULT_STATE (World None [])).
Proof. apply save_load_round_trip. apply default_state_shaped. Defined.

(** A state that lacks the last-success field does not come back as it was
    saved: loading adds the field. *)
Example save_load_adds_last_success :
  load_state (save_state {[ "sent_ids" := JList []; "last_max_published_utc_by_topic" := JDict ∅ ]}
                (World None []))
  = (Ok DEFAULT_STATE,
     save_state {[ "sent_ids" := JList []; "last_max_published_utc_by_topic" := JDict ∅ ]}
       (World None [])).
Proof. vm_compute. reflexivity. Qed.

End LedgerFileFacts.

(** ** The ledger in memory: what appending keeps *)

Module LedgerFacts.
Import PyStr Ledger.

Local Open Scope string_scope.
Local Open Scope Z_scope.

(** The ids that [append_sent_ids] adds to the ledger, before it cuts it. *)
Definition extended (state : State) (ids : list string) : list string :=
  (foldl append_id (sent_ids state, list_to_set (sent_ids state)) ids).1.

Lemma sent_ids_append_sent_ids state ids max_sent_ids :
  sent_ids (append_sent_ids state ids max_sent_ids)
  = if Z.of_nat (length (extended state ids)) >? max_sent_ids
    then slice_from (extended state ids) (- max_sent_ids)
    else extended state ids.
Proof. reflexivity. Qed.

Lemma extended_spec state ids :
  exists added,
    extended state ids = (sent_ids state ++ added)%list /\
    NoDup added /\
    forall x, x ∈ added <-> x ∈ ids /\ x <> "" /\ x ∉ sent_ids state.
Proof. apply append_loop_spec. done. Qed.

Lemma extended_NoDup state ids : NoDup (sent_ids state) -> NoDup (extended state ids).
Proof.
  intros Hstate. destruct (extended_spec state ids) as (added & -> & Hadded & Hin).
  apply NoDup_app. split_and!; [done| |done].
  intros x Hx Hx'. by apply Hin in Hx' as (_ & _ & ?).
Qed.

(** Appending never introduces a duplicate: a ledger without duplicates
    stays without duplicates, whatever the ids and the bound. *)
Theorem append_sent_ids_keeps_NoDup (state : State) (ids : list string) (max_sent_ids : Z) :
  NoDup (sent_ids state) ->
  NoDup (sent_ids (append_sent_ids state ids max_sent_ids)).
Proof.
  intros Hstate. rewrite sent_ids_append_sent_ids.
  pose proof (extended_NoDup state ids Hstate) as Hextended.
  destruct (Z.of_nat (length (extended state ids)) >? max_sent_ids); [|done].
  unfold slice_from. eapply sublist_NoDup; [exact Hextended | apply sublist_drop].
Qed.

Lemma append_sent_ids_keeps_NoDup_witness :
  NoDup (sent_ids (append_sent_ids
                     {| sent_ids := ["a"; "b"]; last_success_utc := None;
                        last_max_published_utc_by_topic := ∅ |}
                     ["b"; "c"; "c"; ""] 2)).
Proof.
  apply append_sent_ids_keeps_NoDup. cbn [sent_ids].
  apply NoDup_cons. split; [|apply NoDup_singleton].
  intros Hin%list_elem_of_singleton. discriminate.
Defined.

Lemma append_within_bound (state : State) (ids : list string) (max_sent_ids : Z) :
  Z.of_nat (length (sent_ids state) + length ids) <= max_sent_ids ->
  exists added,
    sent_ids (append_sent_ids state ids max_sent_ids) = (sent_ids state ++ added)%list /\
    (length added <= length ids)%nat /\
    forall x, x ∈ added <-> x ∈ ids /\ x <> "" /\ x ∉ sent_ids state.
Proof.
  intros Hbound.
  destruct (extended_spec state ids) as (added & Hextended & Hadded & Hin).
  assert (Hlength : (length added <= length ids)%nat).
  { apply submseteq_length, NoDup_submseteq; [done|]. by intros x (? & _)%Hin. }
  exists added. split_and!; [|done|done].
  rewrite sent_ids_append_sent_ids, Hextended.
  destruct (Z.gtb_spec (Z.of_nat (length (sent_ids state ++ added)%list)) max_sent_ids)
    as [Hlong|_]; [|done].
  rewrite length_app in Hlong. lia.
Qed.

(** While the bound is not reached nothing is forgotten: the ledger keeps
    its ids in place, in front of the new ones; an id is in the new ledger
    exactly when it was in the old one or is a non-empty id of the list; and
    appending the same ids again changes nothing. *)
Theorem append_sent_ids_within_bound (state : State) (ids : list string) (max_sent_ids : Z) :
  Z.of_nat (length (sent_ids state) + length ids) <= max_sent_ids ->
  let state' := append_sent_ids state ids max_sent_ids in
  sent_ids state `prefix_of` sent_ids state' /\
  (forall x, x ∈ sent_ids state' <-> x ∈ sent_ids state \/ (x ∈ ids /\ x <> "")) /\
  append_sent_ids state' ids max_sent_ids = state'.
Proof.
  intros Hbound state'.
  destruct (append_within_bound state ids max_sent_ids Hbound)
    as (added & Hstate' & Hlength & Hin).
  fold state' in Hstate'.
  assert (Hmember : forall x,
    x ∈ sent_ids state' <-> x ∈ sent_ids state \/ (x ∈ ids /\ x <> "")).
  { intros x. rewrite Hstate', elem_of_app, Hin.
    destruct (decide (x ∈ sent_ids state)); tauto. }
  split_and!; [by rewrite Hstate'; eexists | done |].
  destruct (extended_spec state' ids) as (again & Hextended' & Hagain & Hin').
  assert (again = []) as ->.
  { destruct again as [|x again]; [done|]. exfalso.
    destruct (Hin' x) as [(Hx & Hne & Hnew) _]; [by left|].
    apply Hnew, Hmember. by right. }
  rewrite app_nil_r in Hextended'.
  assert (Hagain' : sent_ids (append_sent_ids state' ids max_sent_ids) = sent_ids state').
  { rewrite sent_ids_append_sent_ids, Hextended'.
    destruct (Z.gtb_spec (Z.of_nat (length (sent_ids state'))) max_sent_ids) as [Hlong|_];
      [|done].
    rewrite Hstate', length_app in Hlong. lia. }
  unfold append_sent_ids at 1. fold (extended state' ids).
  rewrite <- sent_ids_append_sent_ids, Hagain'. by destruct state'.
Qed.

Lemma append_sent_ids_within_bound_witness :
  let state := {| sent_ids := ["a"]; last_success_utc := None;
                  last_max_published_utc_by_topic := ∅ |} in
  let state' := append_sent_ids state ["b"; "a"; ""] 10 in
  sent_ids state `prefix_of` sent_ids state' /\
  (forall x, x ∈ sent_ids state' <-> x ∈ sent_ids state \/ (x ∈ ["b"; "a"; ""] /\ x <> "")) /\
  append_sent_ids state' ["b"; "a"; ""] 10 = state'.
Proof.
  apply (append_sent_ids_within_bound
           {| sent_ids := ["a"]; last_success_utc := None;
              last_max_published_utc_by_topic := ∅ |} ["b"; "a"; ""] 10).
  cbn. lia.
Defined.

(** A bound that is not positive bounds nothing: with a bound of zero the
    slice [current[-0:]] keeps every id, and with a bound of [-k] the slice
    [current[k:]] drops the [k] oldest ids and keeps all the others, however
    many they are. *)
Theorem append_sent_ids_nonpositive_bound (state : State) (ids : list string)
    (max_sent_ids : Z) :
  max_sent_ids <= 0 ->
  sent_ids (append_sent_ids state ids max_sent_ids)
  = drop (Z.to_nat (- max_sent_ids)) (extended state ids) /\
  sent_ids state `prefix_of` extended state ids.
Proof.
  intros Hbound. split.
  - rewrite sent_ids_append_sent_ids.
    destruct (Z.gtb_spec (Z.of_nat (length (extended state ids))) max_sent_ids) as [Hlong|Hshort].
    + unfold slice_from, clip. destruct (Z.ltb_spec (- max_sent_ids) 0); [lia|].
      destruct (Z.le_gt_cases (- max_sent_ids) (Z.of_nat (length (extended state ids)))).
      * by rewrite Z.min_l.
      * rewrite Z.min_r, Nat2Z.id by lia. rewrite !drop_ge; [done | lia | lia].
    + assert (max_sent_ids = 0) as -> by lia.
      destruct (extended state ids); [done | cbn [length] in Hshort; lia].
  - destruct (extended_spec state ids) as (added & -> & _). by eexists.
Qed.

Lemma append_sent_ids_nonpositive_bound_witness :
  let state := {| sent_ids := ["a"; "b"]; last_success_utc := None;
                  last_max_published_utc_by_topic := ∅ |} in
  sent_ids (append_sent_ids state ["c"; "d"] (-1))
  = drop (Z.to_nat (- -1)) (extended state ["c"; "d"]) /\
  sent_ids state `prefix_of` extended state ["c"; "d"].
Proof.
  apply (append_sent_ids_nonpositive_bound
           {| sent_ids := ["a"; "b"]; last_success_utc := None;
              last_max_published_utc_by_topic := ∅ |} ["c"; "d"] (-1)).
  lia.
Defined.

Example append_negative_bound_example :
  sent_ids (append_sent_ids
              {| sent_ids := ["a"; "b"]; last_success_utc := None;
                 last_max_published_utc_by_topic := ∅ |} ["c"; "d"] (-1))
  = ["b"; "c"; "d"].
Proof. vm_compute. reflexivity. Qed.

End LedgerFacts.

(** ** The partition: what the two outputs hold *)

Module SelectorFacts.
Import PyStr Selector.

Local Open Scope Z_scope.

(** With a sampler that keeps to the contract, both outputs are made of
    candidates. *)
Lemma split_outputs_of_candidates {generator : Type}
    (random_sample : generator -> list Entry -> nat -> list Entry * generator)
    (candidates : list Entry) (max_recent_items max_educational_items : Z) (g : generator) :
  samples_without_replacement random_sample ->
  forall entry,
    entry ∈ ((split_recent_and_educational random_sample candidates
                max_recent_items max_educational_items g).1.1
             ++ (split_recent_and_educational random_sample candidates
                   max_recent_items max_educational_items g).1.2) ->
    entry ∈ candidates.
Proof.
  intros Hsample entry. rewrite split_recent_and_educational_cases.
  assert (Hrecent : forall n, entry ∈ slice_to (non_educational_of candidates) n ->
                              entry ∈ candidates).
  { intros n Hin. unfold slice_to in Hin.
    eapply elem_of_submseteq in Hin; [|apply sublist_submseteq, sublist_take].
    by apply list_elem_of_filter in Hin as [_ ?]. }
  assert (Hpool : entry ∈ educational_pool_of candidates -> entry ∈ candidates).
  { by intros [_ ?]%list_elem_of_filter. }
  repeat case_decide; cbn [fst snd]; rewrite elem_of_app.
  - intros [?|?%elem_of_nil]; [by eapply Hrecent | done].
  - intros [?|?]; [by eapply Hrecent | by apply Hpool].
  - intros [?|Hin]; [by eapply Hrecent|]. apply Hpool.
    eapply elem_of_submseteq; [exact Hin|]. apply Hsample. lia.
Qed.

(** Under the contract of [random.sample]: the recent output is the first
    [max(max_recent_items, 0)] candidates that are not educational, in
    their order; neither output is longer than its cap; every recent entry
    is not educational and every educational entry is; and both outputs are
    made of candidates, each taken at most as often as it occurs. *)
Theorem split_outputs_bounded {generator : Type}
    (random_sample : generator -> list Entry -> nat -> list Entry * generator)
    (candidates : list Entry) (max_recent_items max_educational_items : Z) (g : generator) :
  samples_without_replacement random_sample ->
  let outputs :=
    (split_recent_and_educational random_sample candidates
       max_recent_items max_educational_items g).1 in
  outputs.1 = take (Z.to_nat (Z.max max_recent_items 0)) (non_educational_of candidates) /\
  Z.of_nat (length outputs.1) <= Z.max max_recent_items 0 /\
  Z.of_nat (length outputs.2) <= Z.max max_educational_items 0 /\
  Forall (fun entry => educational entry = false) outputs.1 /\
  Forall (fun entry => educational entry = true) outputs.2 /\
  outputs.1 ⊆+ candidates /\
  outputs.2 ⊆+ candidates.
Proof.
  intros Hsample outputs. subst outputs.
  rewrite split_recent_and_educational_cases.
  set (pool := educational_pool_of candidates).
  set (recent := slice_to (non_educational_of candidates) (Z.max max_recent_items 0)).
  assert (Hrecent : recent = take (Z.to_nat (Z.max max_recent_items 0))
                                  (non_educational_of candidates)).
  { subst recent. apply slice_to_take. lia. }
  assert (Hpool : Forall (fun entry => educational entry = true) pool).
  { apply Forall_forall. by intros entry [? _]%list_elem_of_filter. }
  assert (Hpool_sub : pool ⊆+ candidates).
  { apply sublist_submseteq, sublist_filter. }
  assert (Hfacts :
    recent = take (Z.to_nat (Z.max max_recent_items 0)) (non_educational_of candidates) /\
    Z.of_nat (length recent) <= Z.max max_recent_items 0 /\
    Forall (fun entry => educational entry = false) recent /\
    recent ⊆+ candidates).
  { split_and!; [done| | |].
    - rewrite Hrecent, length_take. lia.
    - rewrite Hrecent. apply Forall_take, Forall_forall.
      by intros entry [? _]%list_elem_of_filter.
    - rewrite Hrecent. etrans; [apply sublist_submseteq, sublist_take|].
      apply sublist_submseteq, sublist_filter. }
  destruct Hfacts as (H1 & H2 & H3 & H4).
  case_decide as Hnone; cbn [fst snd].
  { split_and!; try done; [cbn [length]; lia | apply submseteq_nil_l]. }
  case_decide as Hfits; cbn [fst snd].
  { split_and!; try done. lia. }
  destruct (Hsample g pool (Z.to_nat max_educational_items)) as [Hlength Hsub]; [lia|].
  split_and!; try done.
  - lia.
  - apply Forall_forall. intros entry Hentry.
    rewrite Forall_forall in Hpool. apply Hpool. by eapply elem_of_submseteq.
  - by etrans.
Qed.

Lemma split_outputs_bounded_witness :
  let outputs :=
    (split_recent_and_educational rotating_sample [paper_a; paper_c; paper_b] 5 1 1%nat).1 in
  outputs.1 = take (Z.to_nat (Z.max 5 0)) (non_educational_of [paper_a; paper_c; paper_b]) /\
  Z.of_nat (length outputs.1) <= Z.max 5 0 /\
  Z.of_nat (length outputs.2) <= Z.max 1 0 /\
  Forall (fun entry => educational entry = false) outputs.1 /\
  Forall (fun entry => educational entry = true) outputs.2 /\
  outputs.1 ⊆+ [paper_a; paper_c; paper_b] /\
  outputs.2 ⊆+ [paper_a; paper_c; paper_b].
Proof.
  exact (split_outputs_bounded rotating_sample [paper_a; paper_c; paper_b] 5 1 1%nat
           rotating_sample_without_replacement).
Defined.

End SelectorFacts.

(** ** CandidateSelector: collecting the candidates ([src/filter_rank.py],
    [collect_candidates]) and the topic loop of [run]

    [is_educational] matches a regular expression and stays a parameter.
    The sort key is a float, [-published.timestamp()]: the floats, their
    order and [timestamp] are parameters too.  [sorted] is Python's stable
    sort; it is modelled by the stable insertion sort. *)

Module Candidates.
Import Time PyStr Selector.

Local Open Scope string_scope.
Local Open Scope Z_scope.

(** An entry as the parser hands it over, with the fields the selector
    reads; a missing id is the empty string. *)
Record FeedEntry := {
  feed_arxiv_id : string;
  feed_title : string;
  feed_summary : string;
  feed_published_utc : option datetime
}.

(** [max_published] of [run]: the body of [for entry in parsed_entries]. *)
Definition newer (max_published : option datetime) (entry : FeedEntry)
    : option datetime :=
  match feed_published_utc entry with
  | None => max_published
  | Some published =>
      match max_published with
      | None => Some published
      | Some newest => if published >? newest then Some published else Some newest
      end
  end.

Definition max_published_of (parsed_entries : list FeedEntry) : option datetime :=
  foldl newer None parsed_entries.

Section Selection.

Context {float : Type}.
Variable is_educational : string -> string -> bool.
(** [published.timestamp()], [0.0], and [<] on floats. *)
Variable timestamp : datetime -> float.
Variable float_zero : float.
Variable float_lt : float -> float -> bool.

(** [entry = dict(entry); entry["educational"] = is_educational(...)] *)
Definition tagged (entry : FeedEntry) : Entry :=
  {| arxiv_id := feed_arxiv_id entry;
     title := feed_title entry;
     published_utc := feed_published_utc entry;
     educational := is_educational (feed_title entry) (feed_summary entry) |}.

(** The body of [for entry in entries]. *)
Definition collect (cutoff_utc : datetime) (sent_ids : gset string)
    (candidates : list Entry) (entry : FeedEntry) : list Entry :=
  match feed_published_utc entry with
  | None => candidates
  | Some published_utc =>
      if bool_decide (feed_arxiv_id entry = "") then candidates
      else if published_utc <? cutoff_utc then candidates
      else if bool_decide (feed_arxiv_id entry ∈ sent_ids) then candidates
      else (candidates ++ [tagged entry])%list
  end.

(** The timestamp under the sign of [sort_key]. *)
Definition published_ts (item : Entry) : float :=
  match published_utc item with
  | Some published => timestamp published
  | None => float_zero
  end.

(** [sort_key(a) < sort_key(b)]: the keys are the negated timestamps. *)
Definition key_lt (a b : Entry) : bool := float_lt (published_ts b) (published_ts a).

(** [sorted(items, key=sort_key)] *)
Fixpoint insert_by_key (item : Entry) (sorted : list Entry) : list Entry :=
  match sorted with
  | [] => [item]
  | other :: rest =>
      if key_lt other item then other :: insert_by_key item rest
      else item :: other :: rest
  end.

Definition sorted_by_key (items : list Entry) : list Entry :=
  foldr insert_by_key [] items.

(** [collect_candidates] *)
Definition collect_candidates (entries : list FeedEntry) (cutoff_utc : datetime)
    (sent_ids : gset string) : list Entry :=
  sorted_by_key (foldl (collect cutoff_utc sent_ids) [] entries).

(** The entries that pass the three tests of the loop. *)
Definition eligible (cutoff_utc : datetime) (sent_ids : gset string)
    (entry : FeedEntry) : Prop :=
  feed_arxiv_id entry <> "" /\
  (feed_arxiv_id entry ∉ sent_ids) /\
  exists published, feed_published_utc entry = Some published /\ cutoff_utc <= published.

#[local] Instance eligible_dec cutoff_utc sent_ids entry :
  Decision (eligible cutoff_utc sent_ids entry).
Proof.
  unfold eligible. destruct (feed_published_utc entry) as [published|].
  - destruct (decide (feed_arxiv_id entry <> "")); [|right; tauto].
    destruct (decide (feed_arxiv_id entry ∉ sent_ids)); [|right; tauto].
    destruct (decide (cutoff_utc <= published)).
    + left. eauto.
    + right. intros (_ & _ & p & [= <-] & ?). done.
  - right. by intros (_ & _ & p & ? & _).
Defined.

Lemma collect_eligible cutoff_utc sent_ids candidates entry :
  collect cutoff_utc sent_ids candidates entry
  = if decide (eligible cutoff_utc sent_ids entry)
    then (candidates ++ [tagged entry])%list else candidates.
Proof.
  destruct (decide (eligible cutoff_utc sent_ids entry)) as [Heligible|Hnot]; unfold collect.
  - destruct Heligible as (Hid & Hsent & published & -> & Hcutoff).
    rewrite bool_decide_eq_false_2 by done.
    destruct (Z.ltb_spec published cutoff_utc); [lia|].
    by rewrite bool_decide_eq_false_2.
  - destruct (feed_published_utc entry) as [published|] eqn:Hpublished; [|done].
    case_bool_decide as Hid; [done|].
    destruct (Z.ltb_spec published cutoff_utc) as [Hold|Hnew]; [done|].
    case_bool_decide as Hsent; [done|].
    exfalso. apply Hnot. split_and!; [done | done | eauto].
Qed.

Lemma collect_loop cutoff_utc sent_ids entries : forall candidates,
  foldl (collect cutoff_utc sent_ids) candidates entries
  = (candidates ++ (tagged <$> filter (eligible cutoff_utc sent_ids) entries))%list.
Proof.
  induction entries as [|entry entries IH]; intros candidates; cbn [foldl].
  - by rewrite filter_nil, fmap_nil, app_nil_r.
  - rewrite IH, collect_eligible. case_decide.
    + rewrite filter_cons_True by done. by rewrite fmap_cons, <- app_assoc.
    + by rewrite filter_cons_False.
Qed.

Lemma insert_by_key_perm item sorted : insert_by_key item sorted ≡ₚ item :: sorted.
Proof.
  induction sorted as [|other rest IH]; cbn [insert_by_key]; [done|].
  destruct (key_lt other item); [|done]. rewrite IH. apply Permutation_swap.
Qed.

Lemma sorted_by_key_perm items : sorted_by_key items ≡ₚ items.
Proof.
  induction items as [|item items IH]; cbn [sorted_by_key foldr]; [done|].
  fold (sorted_by_key items). by rewrite insert_by_key_perm, IH.
Qed.

Lemma collect_candidates_perm entries cutoff_utc sent_ids :
  collect_candidates entries cutoff_utc sent_ids
  ≡ₚ tagged <$> filter (eligible cutoff_utc sent_ids) entries.
Proof.
  unfold collect_candidates. by rewrite sorted_by_key_perm, collect_loop.
Qed.

Lemma elem_of_collect_candidates entries cutoff_utc sent_ids candidate :
  candidate ∈ collect_candidates entries cutoff_utc sent_ids <->
  exists entry,
    entry ∈ entries /\ eligible cutoff_utc sent_ids entry /\ candidate = tagged entry.
Proof.
  rewrite collect_candidates_perm, list_elem_of_fmap.
  split.
  - intros (entry & -> & [? ?]%list_elem_of_filter). eauto.
  - intros (entry & ? & ? & ->). exists entry. split; [done|].
    by apply list_elem_of_filter.
Qed.

(** The candidates are the entries that have an id and a publication
    time, are not published before the cutoff and are not in [sent_ids],
    each as often as the feed holds it: nothing else is collected and none
    of these is dropped. *)
Theorem collect_candidates_selects (entries : list FeedEntry) (cutoff_utc : datetime)
    (sent_ids : gset string) :
  let candidates := collect_candidates entries cutoff_utc sent_ids in
  candidates ≡ₚ tagged <$> filter (eligible cutoff_utc sent_ids) entries /\
  Forall (fun candidate =>
            arxiv_id candidate <> "" /\
            (arxiv_id candidate ∉ sent_ids) /\
            exists published,
              published_utc candidate = Some published /\ cutoff_utc <= published)
         candidates.
Proof.
  intros candidates. subst candidates. split; [apply collect_candidates_perm|].
  apply Forall_forall. intros candidate Hin.
  apply elem_of_collect_candidates in Hin as (entry & _ & Heligible & ->).
  exact Heligible.
Qed.

Lemma HdRel_insert_by_key (R : relation Entry) item other rest :
  R other item -> HdRel R other rest -> HdRel R other (insert_by_key item rest).
Proof.
  intros Hitem Hrest. destruct rest as [|next rest]; cbn [insert_by_key].
  - by constructor.
  - apply HdRel_inv in Hrest. destruct (key_lt next item); by constructor.
Qed.

(** The candidates come newest first: no candidate has a smaller timestamp
    than a candidate that comes after it, provided [<] on the floats of the
    timestamps is asymmetric and its negation transitive. *)
Theorem collect_candidates_newest_first (entries : list FeedEntry)
    (cutoff_utc : datetime) (sent_ids : gset string) :
  (forall x y, float_lt x y = true -> float_lt y x = false) ->
  (forall x y z, float_lt x y = false -> float_lt y z = false -> float_lt x z = false) ->
  StronglySorted (fun a b => float_lt (published_ts a) (published_ts b) = false)
    (collect_candidates entries cutoff_utc sent_ids).
Proof.
  intros Hasymmetric Htransitive. unfold collect_candidates.
  generalize (foldl (collect cutoff_utc sent_ids) [] entries). intros items.
  apply Sorted_StronglySorted.
  { intros a b c. apply Htransitive. }
  induction items as [|item items IH]; cbn [sorted_by_key foldr]; [constructor|].
  fold (sorted_by_key items). revert IH. generalize (sorted_by_key items). intros sorted.
  induction sorted as [|other rest IHrest]; intros Hsorted; cbn [insert_by_key].
  - repeat constructor.
  - apply Sorted_inv in Hsorted as [Hrest Hhead].
    destruct (key_lt other item) eqn:Hkey; unfold key_lt in Hkey.
    + constructor; [by apply IHrest|].
      apply HdRel_insert_by_key; [by apply Hasymmetric | done].
    + constructor; [by constructor | by constructor].
Qed.

(** *** The topic loop *)

Context {generator : Type}.
Variable random_sample : generator -> list Entry -> nat -> list Entry * generator.

(** The result of a topic: its name, its recent and its educational
    entries. *)
Definition TopicResult : Type := string * list Entry * list Entry.

(** [recent_entries + educational_entries] *)
Definition selected (topic_result : TopicResult) : list Entry :=
  (topic_result.1.2 ++ topic_result.2)%list.

(** [for entry in topic_sent_entries: sent_ids.add(entry["arxiv_id"])] *)
Definition mark_sent (sent_ids : gset string) (entries : list Entry) : gset string :=
  foldl (fun sent_ids entry => sent_ids ∪ {[arxiv_id entry]}) sent_ids entries.

(** One turn of the topic loop on the entries parsed from the feed of the
    topic: the selection, and the ids added to the set of the run. *)
Definition select_topic (cutoff_utc : datetime) (max_recent_items max_educational_items : Z)
    (acc : gset string * list TopicResult * generator)
    (feed : string * list FeedEntry) : gset string * list TopicResult * generator :=
  let '(sent_ids, topic_results, g) := acc in
  let '(topic_name, parsed_entries) := feed in
  let candidates := collect_candidates parsed_entries cutoff_utc sent_ids in
  let '((recent_entries, educational_entries), g) :=
    split_recent_and_educational random_sample candidates
      max_recent_items max_educational_items g in
  (mark_sent sent_ids (recent_entries ++ educational_entries),
   (topic_results ++ [(topic_name, recent_entries, educational_entries)])%list,
   g).

Definition select_topics (cutoff_utc : datetime) (max_recent_items max_educational_items : Z)
    (sent_ids : gset string) (g : generator) (feeds : list (string * list FeedEntry))
    : gset string * list TopicResult * generator :=
  foldl (select_topic cutoff_utc max_recent_items max_educational_items)
        (sent_ids, [], g) feeds.

Lemma elem_of_mark_sent entries : forall (sent_ids : gset string) id,
  id ∈ mark_sent sent_ids entries <->
  id ∈ sent_ids \/ exists entry, entry ∈ entries /\ arxiv_id entry = id.
Proof.
  unfold mark_sent.
  induction entries as [|entry entries IH]; intros sent_ids id; cbn [foldl].
  - split; [by left|]. intros [?|(entry & []%elem_of_nil & _)]; done.
  - rewrite IH, elem_of_union, elem_of_singleton. split.
    + intros [[?| ->]|(entry' & ? & ?)]; [by left | |].
      * right. exists entry. split; [by left | done].
      * right. exists entry'. split; [by right | done].
    + intros [?|(entry' & [->|?]%elem_of_cons & ?)]; [by left; left | by left; right |].
      right. by exists entry'.
Qed.

(** What the topic loop keeps: the set of the run only grows; every entry
    selected so far has its id in the set, and not in the set the run
    started from; and two entries selected for different topics have
    different ids. *)
Definition no_repeats (sent_ids0 : gset string)
    (acc : gset string * list TopicResult * generator) : Prop :=
  sent_ids0 ⊆ acc.1.1 /\
  (forall topic_result entry,
     topic_result ∈ acc.1.2 -> entry ∈ selected topic_result ->
     arxiv_id entry ∈ acc.1.1 /\ arxiv_id entry ∉ sent_ids0) /\
  (forall (i j : nat) first second entry1 entry2,
     (i < j)%nat -> acc.1.2 !! i = Some first -> acc.1.2 !! j = Some second ->
     entry1 ∈ selected first -> entry2 ∈ selected second ->
     arxiv_id entry1 <> arxiv_id entry2).

Lemma select_topic_no_repeats cutoff_utc max_recent_items max_educational_items
    sent_ids0 acc feed :
  samples_without_replacement random_sample ->
  no_repeats sent_ids0 acc ->
  no_repeats sent_ids0
    (select_topic cutoff_utc max_recent_items max_educational_items acc feed).
Proof.
  intros Hsample (Hgrows & Hmarked & Hdistinct).
  destruct acc as [[sent_ids topic_results] g]. destruct feed as [topic_name parsed_entries].
  cbn [fst snd] in *. unfold select_topic.
  pose proof (SelectorFacts.split_outputs_of_candidates random_sample
                (collect_candidates parsed_entries cutoff_utc sent_ids)
                max_recent_items max_educational_items g Hsample) as Hfrom.
  destruct (split_recent_and_educational random_sample
              (collect_candidates parsed_entries cutoff_utc sent_ids)
              max_recent_items max_educational_items g)
    as [[recent_entries educational_entries] g'].
  cbn [fst snd] in *.
  assert (Hfresh : forall entry,
    entry ∈ (recent_entries ++ educational_entries)%list -> arxiv_id entry ∉ sent_ids).
  { intros entry Hin%Hfrom.
    apply elem_of_collect_candidates in Hin as (feed_entry & _ & (_ & Hnew & _) & ->).
    exact Hnew. }
  split_and!; cbn [fst snd].
  - intros id Hid. apply elem_of_mark_sent. left. by apply Hgrows.
  - intros topic_result entry [Hold|Hnew%list_elem_of_singleton]%elem_of_app Hentry.
    + destruct (Hmarked topic_result entry Hold Hentry) as [Hin Hnot].
      split; [|done]. apply elem_of_mark_sent. by left.
    + subst topic_result. unfold selected in Hentry. cbn [fst snd] in Hentry. split.
      * apply elem_of_mark_sent. right. by exists entry.
      * intros Hin0. by apply (Hfresh entry Hentry), Hgrows.
  - intros i j first second entry1 entry2 Hij Hfirst Hsecond Hentry1 Hentry2.
    destruct (decide (j < length topic_results)%nat) as [Hj|Hj].
    + rewrite lookup_app_l in Hfirst by lia. rewrite lookup_app_l in Hsecond by lia.
      exact (Hdistinct i j first second entry1 entry2 Hij Hfirst Hsecond Hentry1 Hentry2).
    + pose proof (lookup_lt_Some _ _ _ Hsecond) as Hlt.
      rewrite length_app in Hlt. cbn [length] in Hlt.
      rewrite lookup_app_l in Hfirst by lia.
      rewrite lookup_app_r in Hsecond by lia.
      apply list_lookup_singleton_Some in Hsecond as [_ <-].
      unfold selected in Hentry2. cbn [fst snd] in Hentry2.
      apply list_elem_of_lookup_2 in Hfirst.
      destruct (Hmarked first entry1 Hfirst Hentry1) as [Hin _].
      intros Heq. apply (Hfresh entry2 Hentry2). by rewrite <- Heq.
Qed.

(** Under the contract of [random.sample], the topic loop never selects an
    id that the ledger already holds, never selects one id for two topics,
    and leaves every selected id in the set of the run. *)
Theorem select_topics_no_repeats (cutoff_utc : datetime)
    (max_recent_items max_educational_items : Z)
    (sent_ids : gset string) (g : generator) (feeds : list (string * list FeedEntry)) :
  samples_without_replacement random_sample ->
  no_repeats sent_ids
    (select_topics cutoff_utc max_recent_items max_educational_items sent_ids g feeds).
Proof.
  intros Hsample. unfold select_topics.
  assert (Hstart : no_repeats sent_ids (sent_ids, @nil TopicResult, g)).
  { split_and!; cbn [fst snd]; [done| |].
    - by intros ? ? []%elem_of_nil.
    - intros i j first second ? ? _ Hfirst. by rewrite lookup_nil in Hfirst. }
  revert Hstart. generalize (sent_ids, @nil TopicResult, g).
  induction feeds as [|feed feeds IH]; intros acc Hacc; cbn [foldl]; [done|].
  apply IH. by apply select_topic_no_repeats.
Qed.

End Selection.

(** [max_published_of] is [None] exactly when no entry has a publication
    time; otherwise it is the publication time of one of the entries, and
    no entry has a later one. *)
Theorem max_published_of_newest (parsed_entries : list FeedEntry) :
  match max_published_of parsed_entries with
  | None => forall entry, entry ∈ parsed_entries -> feed_published_utc entry = None
  | Some newest =>
      (exists entry, entry ∈ parsed_entries /\ feed_published_utc entry = Some newest) /\
      forall entry published,
        entry ∈ parsed_entries -> feed_published_utc entry = Some published ->
        published <= newest
  end.
Proof.
  unfold max_published_of.
  assert (Hloop : forall entries acc,
    match foldl newer acc entries with
    | None =>
        acc = None /\ forall entry, entry ∈ entries -> feed_published_utc entry = None
    | Some newest =>
        (acc = Some newest \/
         exists entry, entry ∈ entries /\ feed_published_utc entry = Some newest) /\
        (forall m, acc = Some m -> m <= newest) /\
        forall entry published,
          entry ∈ entries -> feed_published_utc entry = Some published ->
          published <= newest
    end).
  { induction entries as [|entry entries IH]; intros acc; cbn [foldl].
    - destruct acc as [m|].
      + split_and!; [by left | by intros ? [= ->] | by intros ? ? []%elem_of_nil].
      + split; [done | by intros ? []%elem_of_nil].
    - specialize (IH (newer acc entry)).
      destruct (foldl newer (newer acc entry) entries) as [newest|].
      + destruct IH as (Hfrom & Hacc & Hall). unfold newer in Hfrom, Hacc.
        destruct (feed_published_utc entry) as [published|] eqn:Hpublished.
        * assert (published <= newest /\ forall m, acc = Some m -> m <= newest) as [Hp Hm].
          { destruct acc as [m|].
            - destruct (Z.gtb_spec published m).
              + specialize (Hacc published eq_refl). split; [done|]. intros ? [= <-]. lia.
              + specialize (Hacc m eq_refl). split; [lia|]. by intros ? [= <-].
            - specialize (Hacc published eq_refl). split; [done|]. by intros ? [=]. }
          split_and!; [|done|].
          -- destruct Hfrom as [Hfrom|(e & ? & ?)]; [|right; exists e; split; [by right|done]].
             destruct acc as [m|].
             ++ destruct (Z.gtb_spec published m); injection Hfrom as <-.
                ** right. exists entry. split; [by left | done].
                ** by left.
             ++ injection Hfrom as <-. right. exists entry. split; [by left | done].
          -- intros e p [->|?]%elem_of_cons He; [|by eapply Hall].
             rewrite Hpublished in He. by injection He as <-.
        * split_and!; [|done|].
          -- destruct Hfrom as [?|(e & ? & ?)]; [by left|].
             right. exists e. split; [by right | done].
          -- intros e p [->|?]%elem_of_cons He; [congruence | by eapply Hall].
      + destruct IH as [Hacc Hall]. unfold newer in Hacc.
        destruct (feed_published_utc entry) as [published|] eqn:Hpublished.
        * destruct acc as [m|]; [by destruct (published >? m) | done].
        * split; [done|]. intros e [->|?]%elem_of_cons; [done | by apply Hall]. }
  specialize (Hloop parsed_entries None).
  destruct (foldl newer None parsed_entries) as [newest|].
  - destruct Hloop as ([?|?] & _ & ?); [done | by split].
  - by destruct Hloop.
Qed.

(** A feed to compute with; the timestamps are compared as integers. *)
Definition feed_example : list FeedEntry :=
  [ {| feed_arxiv_id := "2401.00001v1"; feed_title := "Old"; feed_summary := "";
       feed_published_utc := Some 100 |};
    {| feed_arxiv_id := "2401.00002v1"; feed_title := "New"; feed_summary := "";
       feed_published_utc := Some 300 |};
    {| feed_arxiv_id := ""; feed_title := "No id"; feed_summary := "";
       feed_published_utc := Some 400 |};
    {| feed_arxiv_id := "2401.00003v1"; feed_title := "A survey"; feed_summary := "";
       feed_published_utc := Some 200 |};
    {| feed_arxiv_id := "2401.00004v1"; feed_title := "Sent"; feed_summary := "";
       feed_published_utc := Some 500 |};
    {| feed_arxiv_id := "2401.00005v1"; feed_title := "Undated"; feed_summary := "";
       feed_published_utc := None |};
    {| feed_arxiv_id := "2401.00006v1"; feed_title := "Stale"; feed_summary := "";
       feed_published_utc := Some 50 |} ].

Definition survey_title (title summary : string) : bool := String.eqb title "A survey".

Example collect_candidates_example :
  arxiv_id <$> collect_candidates survey_title id 0 Z.ltb feed_example 100 {[ "2401.00004v1" ]}
  = ["2401.00002v1"; "2401.00003v1"; "2401.00001v1"].
Proof. vm_compute. reflexivity. Qed.

Lemma collect_candidates_newest_first_witness :
  StronglySorted (fun a b => Z.ltb (published_ts id 0 a) (published_ts id 0 b) = false)
    (collect_candidates survey_title id 0 Z.ltb feed_example 100 {[ "2401.00004v1" ]}).
Proof.
  apply (collect_candidates_newest_first survey_title id 0 Z.ltb).
  - intros x y Hlt%Z.ltb_lt. apply Z.ltb_ge. lia.
  - intros x y z Hxy%Z.ltb_ge Hyz%Z.ltb_ge. apply Z.ltb_ge. lia.
Defined.

Lemma select_topics_no_repeats_witness :
  no_repeats {[ "2401.00004v1" ]}
    (select_topics survey_title id 0 Z.ltb rotating_sample 100 1 1
       {[ "2401.00004v1" ]} 0%nat [("cs.LG", feed_example); ("stat.ML", feed_example)]).
Proof.
  apply (select_topics_no_repeats survey_title id 0 Z.ltb rotating_sample).
  apply rotating_sample_without_replacement.
Defined.

Example select_topics_example :
  (fun r : TopicResult => (r.1.1, arxiv_id <$> r.1.2, arxiv_id <$> r.2))
  <$> (select_topics survey_title id 0 Z.ltb rotating_sample 100 1 1
         {[ "2401.00004v1" ]} 0%nat [("cs.LG", feed_example); ("stat.ML", feed_example)]).1.2
  = [("cs.LG", ["2401.00002v1"], ["2401.00003v1"]);
     ("stat.ML", ["2401.00001v1"], [])].
Proof. vm_compute. reflexivity. Qed.

(** Once the ids of the candidates are recorded in the ledger, and the
    ledger has room for them, collecting from the same entries gives no
    candidate. *)
Theorem collect_candidates_after_recording {float : Type}
    (is_educational : string -> string -> bool) (timestamp : datetime -> float)
    (float_zero : float) (float_lt : float -> float -> bool)
    (state : Ledger.State) (entries : list FeedEntry) (cutoff_utc : datetime)
    (max_sent_ids : Z) :
  let collect_from state :=
    collect_candidates is_educational timestamp float_zero float_lt entries cutoff_utc
      (Ledger.sent_id_set state) in
  let state' :=
    Ledger.append_sent_ids state (arxiv_id <$> collect_from state) max_sent_ids in
  Z.of_nat (length (Ledger.sent_ids state) + length (collect_from state)) <= max_sent_ids ->
  collect_from state' = [].
Proof.
  intros collect_from state' Hroom.
  destruct (LedgerFacts.append_within_bound state (arxiv_id <$> collect_from state)
              max_sent_ids) as (added & Hstate' & _ & Hadded).
  { by rewrite length_fmap. }
  fold state' in Hstate'.
  destruct (collect_from state') as [|candidate rest] eqn:Hcollect; [done|]. exfalso.
  assert (Hin : candidate ∈ collect_from state') by (rewrite Hcollect; by left).
  subst collect_from. cbv beta in *.
  apply elem_of_collect_candidates in Hin as (entry & Hentry & (Hid & Hnew & Hdated) & ->).
  unfold Ledger.sent_id_set in Hnew. rewrite not_elem_of_list_to_set, Hstate' in Hnew.
  apply not_elem_of_app in Hnew as [Hold Hnot].
  apply Hnot, Hadded. split_and!; [|done|done].
  apply list_elem_of_fmap. exists (tagged is_educational entry). split; [done|].
  apply elem_of_collect_candidates. exists entry. split_and!; [done| |done].
  split_and!; [done| |done].
  unfold Ledger.sent_id_set. by rewrite not_elem_of_list_to_set.
Qed.

Lemma collect_candidates_after_recording_witness :
  let collect_from state :=
    collect_candidates survey_title id 0 Z.ltb feed_example 100 (Ledger.sent_id_set state) in
  let state := {| Ledger.sent_ids := ["2401.00004v1"]; Ledger.last_success_utc := None;
                  Ledger.last_max_published_utc_by_topic := ∅ |} in
  let state' := Ledger.append_sent_ids state (arxiv_id <$> collect_from state) 10 in
  collect_from state' = [].
Proof.
  apply (collect_candidates_after_recording survey_title id 0 Z.ltb
           {| Ledger.sent_ids := ["2401.00004v1"]; Ledger.last_success_utc := None;
              Ledger.last_max_published_utc_by_topic := ∅ |} feed_example 100 10).
  vm_compute. discriminate.
Defined.

End Candidates.

(** ** Delivery ([src/discord_webhook.py]): sending the messages *)

Module Delivery.
Import PyStr LedgerFile Run.

Local Open Scope Z_scope.

Section Webhook.

Variable post : list event -> str -> result Z.
Variable limit : Z.

(** [send] raises only on content that is not empty, and then nothing has
    been posted. *)
Lemma send_raises content w e w' :
  send post limit content w = (Raise e, w') -> content <> [] /\ w' = w.
Proof.
  unfold send. destruct content as [|c content]; cbn [is_empty]; [done|].
  destruct (len (c :: content) >? limit); [by intros [= _ <-]|].
  destruct (post (events w) (c :: content)) as [status_code|e']; [|by intros [= _ <-]].
  by destruct ((status_code =? 200) || (status_code =? 204)); intros [= <-].
Qed.

Lemma send_messages_run (messages : list str) : forall w outcome w',
  send_messages post limit messages w = (outcome, w') ->
  file w' = file w /\
  match outcome with
  | Ok sent_count =>
      sent_count = Z.of_nat (length messages) /\
      events w' = events w ++ posts (delivered messages)
  | Raise _ =>
      exists posted failed rest,
        delivered messages = posted ++ failed :: rest /\
        events w' = events w ++ posts posted
  end.
Proof.
  induction messages as [|content messages IH]; intros w outcome w';
    cbn [send_messages]; unfold bind, ret.
  { intros [= <- <-]. cbn. by rewrite app_nil_r. }
  assert (Hsplit : delivered (content :: messages) = delivered [content] ++ delivered messages).
  { unfold delivered. by rewrite <- filter_app. }
  destruct (send post limit content w) as [[[]|e] w1] eqn:Hsend.
  - apply send_spec in Hsend as [Hfile Hevents].
    destruct (send_messages post limit messages w1) as [[sent_count|e] w2] eqn:Hrest;
      apply IH in Hrest as [Hfile' Hrest]; intros [= <- <-].
    + destruct Hrest as [-> Hevents']. split_and!; [congruence | cbn [length]; lia |].
      rewrite Hevents', Hevents, Hsplit, <- app_assoc. unfold posts. by rewrite fmap_app.
    + destruct Hrest as (posted & failed & rest & Hdelivered & Hevents').
      split; [congruence|]. exists (delivered [content] ++ posted), failed, rest.
      rewrite Hsplit, Hdelivered, Hevents', Hevents, <- !app_assoc.
      unfold posts. by rewrite fmap_app.
  - apply send_raises in Hsend as [Hcontent ->]. intros [= <- <-].
    split; [done|]. exists [], content, (delivered messages).
    rewrite Hsplit. unfold delivered at 1.
    rewrite filter_cons_True, filter_nil by by apply is_empty_false.
    split; [done|]. cbn. by rewrite app_nil_r.
Qed.

(** [send_messages] leaves the state file alone.  When it returns, it
    returns the number of messages it was given, the empty ones that [send]
    skips included, and has posted the others in order.  When it raises, it
    has posted the messages before the one that failed and none after it. *)
Theorem send_messages_stops_at_failure (messages : list str) (w : world) :
  let outcome := (send_messages post limit messages w).1 in
  let w' := (send_messages post limit messages w).2 in
  file w' = file w /\
  match outcome with
  | Ok sent_count =>
      sent_count = Z.of_nat (length messages) /\
      events w' = events w ++ posts (delivered messages)
  | Raise _ =>
      exists posted failed rest,
        delivered messages = posted ++ failed :: rest /\
        events w' = events w ++ posts posted
  end.
Proof.
  cbv zeta. destruct (send_messages post limit messages w) as [outcome w'] eqn:Hrun.
  cbn [fst snd]. by eapply send_messages_run.
Qed.

(** A webhook that answers 200 or 204 to every request. *)
Definition accepting : Prop :=
  forall history content, post history content = Ok 200 \/ post history content = Ok 204.

Lemma send_messages_accepted (messages : list str) : forall w,
  accepting ->
  Forall (fun content => content <> [] /\ len content <= limit) messages ->
  send_messages post limit messages w
  = (Ok (Z.of_nat (length messages)),
     {| file := file w; events := events w ++ posts messages |}).
Proof.
  intros w Haccept Hmessages. revert w.
  induction Hmessages as [|content messages [Hne Hlen] _ IH]; intros w; cbn [send_messages].
  { unfold ret. cbn. rewrite app_nil_r. by destruct w. }
  unfold bind at 1. unfold send.
  apply is_empty_false in Hne. rewrite Hne.
  destruct (Z.gtb_spec (len content) limit); [lia|].
  assert (Hposted : exists status_code, post (events w) content = Ok status_code /\
            (status_code =? 200) || (status_code =? 204) = true).
  { destruct (Haccept (events w) content) as [->| ->]; eauto. }
  destruct Hposted as (status_code & -> & ->).
  unfold bind. rewrite IH. unfold ret. cbn [file events].
  f_equal; [f_equal; cbn [length]; lia|].
  f_equal. rewrite <- app_assoc. done.
Qed.

End Webhook.

(** The messages built from the blocks with the bound of the webhook go
    through [send_messages] whole, when the bound is positive and the
    webhook accepts what it is sent: none is refused as too long, none is
    skipped as empty, and all are posted in order. *)
Theorem build_and_send_messages (post : list event -> str -> result Z)
    (max_content_length : Z) (blocks : list str) (w : world) :
  1 <= max_content_length ->
  accepting post ->
  exists messages,
    Packer.split_blocks_to_messages blocks max_content_length = Some messages /\
    send_messages post max_content_length messages w
    = (Ok (Z.of_nat (length messages)),
       {| file := file w; events := events w ++ posts messages |}).
Proof.
  intros Hpositive Haccept.
  destruct (Packer.split_blocks_to_messages_spec max_content_length Hpositive blocks)
    as (messages & Hbuilt & Hgood & _).
  exists messages. split; [done|]. by apply send_messages_accepted.
Qed.

Lemma build_and_send_messages_witness :
  exists messages,
    Packer.split_blocks_to_messages [str_of_string "ab"; str_of_string "cdefgh"] 4
    = Some messages /\
    send_messages (fun _ _ => Ok 204) 4 messages (World None [])
    = (Ok (Z.of_nat (length messages)),
       {| file := None; events := [] ++ posts messages |}).
Proof.
  apply (build_and_send_messages (fun _ _ => Ok 204) 4
           [str_of_string "ab"; str_of_string "cdefgh"] (World None [])).
  - lia.
  - intros history content. by right.
Defined.

(** An empty message is counted but not posted; a refusal stops the
    sending. *)
Example send_messages_examples :
  send_messages (fun _ _ => Ok 200) 10 [str_of_string "a"; []; str_of_string "b"] (World None [])
  = (Ok 3, World None [Posted (str_of_string "a"); Posted (str_of_string "b")]) /\
  send_messages (fun _ content => if (len content =? 1) then Ok 200 else Ok 429) 10
    [str_of_string "a"; str_of_string "bc"; str_of_string "d"] (World None [])
  = (Raise DiscordWebhookError, World None [Posted (str_of_string "a")]).
Proof. split; vm_compute; reflexivity. Qed.

End Delivery.

(** ** The search query ([src/main.py], [quote_all_term] and
    [build_search_query])

    The terms and the categories of a topic are taken as strings, on which
    [str(...)] is the identity; a key that the topic does not have reads as
    the empty list.  [str.lower] is a parameter of the model. *)

Module Query.
Import PyStr Text.

Definition quote : char := 34%N.
Definition backslash : char := 92%N.

(** [s.startswith(prefix)] *)
Fixpoint startswith (s prefix : str) {struct prefix} : bool :=
  match prefix, s with
  | [], _ => true
  | p :: prefix, c :: s => N.eqb c p && startswith s prefix
  | _ :: _, [] => false
  end.

Definition field_prefixes : list str :=
  str_of_string <$> ["all:"; "ti:"; "abs:"; "cat:"; "au:"; "jr:"; "rn:"; "id:"]%string.

(** [term.replace(quote, backslash + quote)] *)
Definition escape (term : str) : str :=
  term ≫= fun c => if N.eqb c quote then [backslash; quote] else [c].

Record Topic := {
  query_terms : list str;
  categories : list str;
}.

(** [bool(s.strip())] *)
Definition has_text (s : str) : bool := negb (is_empty (strip s)).

(** The lower case of the ASCII letters, for the examples. *)
Definition ascii_lower (s : str) : str :=
  (fun c => if (65 <=? c)%N && (c <=? 90)%N then (c + 32)%N else c) <$> s.

Section Lower.

(** [str.lower] *)
Variable lower : str -> str.

Definition has_field_prefix (term : str) : bool :=
  existsb (startswith (lower term)) field_prefixes.

(** [quote_all_term] *)
Definition quote_all_term (term : str) : str :=
  let term := strip term in
  if is_empty term then []
  else if has_field_prefix term then term
  else str_of_string "all:" ++ [quote] ++ escape term ++ [quote].

(** [build_search_query] *)
Definition build_search_query (topic : Topic) : result str :=
  let term_parts := quote_all_term <$> filter (fun term => has_text term = true) (query_terms topic) in
  let term_parts := filter (fun part => is_empty part = false) term_parts in
  let cat_parts :=
    (fun cat => str_of_string "cat:" ++ cat)
      <$> filter (fun cat => has_text cat = true) (categories topic) in
  let groups :=
    match term_parts with
    | [] => []
    | _ => [str_of_string "(" ++ join (str_of_string " OR ") term_parts ++ str_of_string ")"]
    end
    ++ match cat_parts with
       | [] => []
       | _ => [str_of_string "(" ++ join (str_of_string " OR ") cat_parts ++ str_of_string ")"]
       end in
  match groups with
  | [] => Raise ValueError
  | _ => Ok (join (str_of_string " AND ") groups)
  end.

(** A string that neither starts nor ends with white space. *)
Definition trimmed (s : str) : Prop :=
  (forall c rest, s = c :: rest -> is_space c = false) /\
  (forall c front, s = front ++ [c] -> is_space c = false).

Lemma lstrip_spec (s : str) :
  exists spaces, s = spaces ++ lstrip s /\ Forall (fun c => is_space c = true) spaces /\
    forall c rest, lstrip s = c :: rest -> is_space c = false.
Proof.
  induction s as [|c s (spaces & Hs & Hspaces & Hhead)]; cbn [lstrip].
  { by exists []. }
  destruct (is_space c) eqn:Hc.
  - exists (c :: spaces). split_and!; [cbn; congruence | by constructor | done].
  - exists []. split_and!; [done | done |]. by intros ? ? [= <- <-].
Qed.

Lemma lstrip_trimmed (s : str) :
  (forall c rest, s = c :: rest -> is_space c = false) -> lstrip s = s.
Proof.
  destruct s as [|c s]; [done|]. intros Hhead. cbn [lstrip].
  by rewrite (Hhead c s eq_refl).
Qed.

Lemma rstrip_trimmed (s : str) :
  (forall c front, s = front ++ [c] -> is_space c = false) -> rstrip s = s.
Proof.
  intros Hlast. unfold rstrip. rewrite lstrip_trimmed; [by rewrite reverse_involutive|].
  intros c rest Hrev. apply (Hlast c (reverse rest)).
  by rewrite <- (reverse_involutive s), Hrev, reverse_cons.
Qed.

Lemma strip_of_trimmed (s : str) : trimmed s -> strip s = s.
Proof.
  intros [Hhead Hlast]. unfold strip. rewrite lstrip_trimmed by done.
  by apply rstrip_trimmed.
Qed.

Lemma strip_trimmed (s : str) : trimmed (strip s).
Proof.
  unfold strip, rstrip.
  destruct (lstrip_spec s) as (_ & _ & _ & Hhead).
  destruct (lstrip_spec (reverse (lstrip s))) as (spaces & Hrev & Hspaces & Hlast).
  set (kept := lstrip (reverse (lstrip s))) in *.
  assert (Hs : lstrip s = reverse kept ++ reverse spaces).
  { by rewrite <- reverse_app, <- Hrev, reverse_involutive. }
  split.
  - intros c rest Hkept. apply (Hhead c (rest ++ reverse spaces)).
    by rewrite Hs, Hkept.
  - intros c front Hkept. apply (Hlast c (reverse front)).
    by rewrite <- (reverse_involutive kept), Hkept, reverse_app.
Qed.

Lemma strip_nil : strip [] = [].
Proof. done. Qed.

Lemma quote_all_term_has_text (term : str) :
  has_text term = true -> quote_all_term term <> [].
Proof.
  unfold has_text, quote_all_term. cbv zeta.
  destruct (is_empty (strip term)) eqn:Hempty; [done|]. intros _.
  destruct (has_field_prefix (strip term)); [by apply is_empty_false|done].
Qed.

Lemma filter_all {A} (P : A -> Prop) `{!forall x, Decision (P x)} (l : list A) :
  Forall P l -> filter P l = l.
Proof.
  induction 1 as [|x l Hx _ IH]; [done|]. by rewrite filter_cons_True, IH.
Qed.

(** [build_search_query] raises, and then [ValueError], exactly when no
    query term and no category has a character that is not white space;
    otherwise it returns a query that is not empty. *)
Theorem build_search_query_raises (topic : Topic) :
  match build_search_query topic with
  | Ok query =>
      query <> [] /\
      Exists (fun s => strip s <> []) (query_terms topic ++ categories topic)
  | Raise e =>
      e = ValueError /\
      Forall (fun s => strip s = []) (query_terms topic ++ categories topic)
  end.
Proof.
  unfold build_search_query. cbv zeta.
  set (terms := filter (fun term => has_text term = true) (query_terms topic)).
  set (cats := filter (fun cat => has_text cat = true) (categories topic)).
  assert (Hparts : filter (fun part => is_empty part = false) (quote_all_term <$> terms)
                   = quote_all_term <$> terms).
  { apply filter_all, Forall_forall. intros part (term & -> & Hterm)%list_elem_of_fmap.
    apply is_empty_false, quote_all_term_has_text.
    by apply list_elem_of_filter in Hterm as [? _]. }
  rewrite Hparts.
  assert (Hblank : forall l : list str,
            filter (fun s => has_text s = true) l = [] ->
            Forall (fun s => strip s = []) l).
  { intros l Hl. apply Forall_forall. intros s Hs.
    destruct (strip s) eqn:Hstrip; [done|].
    assert (Hin : s ∈ filter (fun s => has_text s = true) l).
    { apply list_elem_of_filter. split; [|done]. unfold has_text. by rewrite Hstrip. }
    rewrite Hl in Hin. by apply elem_of_nil in Hin. }
  assert (Htext : forall (l : list str) s rest,
            filter (fun s => has_text s = true) l = s :: rest ->
            Exists (fun s => strip s <> []) l).
  { intros l s rest Hl. apply Exists_exists. exists s.
    assert (Hin : s ∈ filter (fun s => has_text s = true) l) by (rewrite Hl; left).
    apply list_elem_of_filter in Hin as [Hs Hin]. split; [done|].
    unfold has_text in Hs. by destruct (strip s). }
  destruct terms as [|term terms'] eqn:Hterms; destruct cats as [|cat cats'] eqn:Hcats;
    cbn [fmap list_fmap app].
  - split; [done|]. apply Forall_app. split; by apply Hblank.
  - split; [|apply Exists_app; right; by eapply Htext].
    cbn [join]. done.
  - split; [|apply Exists_app; left; by eapply Htext].
    cbn [join]. done.
  - split; [|apply Exists_app; left; by eapply Htext].
    cbn [join]. done.
Qed.

(** Quoting twice is quoting once, for a [lower] that keeps a leading
    [all:]: a term that carries a field prefix passes unchanged, and a
    quoted term is not quoted again. *)
Theorem quote_all_term_idempotent (term : str) :
  (forall s, startswith (lower (str_of_string "all:" ++ s)) (str_of_string "all:") = true) ->
  quote_all_term (quote_all_term term) = quote_all_term term.
Proof.
  intros Hlower. unfold quote_all_term at 2. cbv zeta.
  destruct (is_empty (strip term)) eqn:Hempty.
  { unfold quote_all_term. cbv zeta. by rewrite strip_nil, Hempty. }
  destruct (has_field_prefix (strip term)) eqn:Hprefix.
  - unfold quote_all_term. cbv zeta.
    rewrite (strip_of_trimmed (strip term)) by apply strip_trimmed.
    by rewrite Hempty, Hprefix.
  - set (quoted := str_of_string "all:" ++ [quote] ++ escape (strip term) ++ [quote]).
    assert (Htrimmed : trimmed quoted).
    { split.
      - by intros c rest [= <- _].
      - intros c front Hquoted. unfold quoted in Hquoted.
        rewrite !app_assoc in Hquoted. by apply app_inj_tail in Hquoted as [_ <-]. }
    assert (Hfield : has_field_prefix quoted = true).
    { unfold has_field_prefix, field_prefixes. cbn [fmap list_fmap existsb].
      unfold quoted. by rewrite Hlower. }
    unfold quote_all_term. cbv zeta. fold quoted.
    by rewrite (strip_of_trimmed quoted Htrimmed), Hfield, Hempty, Hprefix.
Qed.

End Lower.

Lemma quote_all_term_idempotent_witness :
  quote_all_term ascii_lower (quote_all_term ascii_lower (str_of_string " Graph Neural "))
  = quote_all_term ascii_lower (str_of_string " Graph Neural ").
Proof.
  apply (quote_all_term_idempotent ascii_lower (str_of_string " Graph Neural ")).
  intros s. vm_compute. reflexivity.
Defined.

(** A term with a field prefix in capitals passes as it is; a quote inside
    a term is escaped; white space alone gives no part. *)
Example quote_all_term_examples :
  quote_all_term ascii_lower (str_of_string " TI:graphs ") = str_of_string "TI:graphs" /\
  quote_all_term ascii_lower (str_of_string "a" ++ [quote] ++ str_of_string "b")
  = str_of_string "all:" ++ [quote] ++ str_of_string "a" ++ [backslash; quote]
    ++ str_of_string "b" ++ [quote] /\
  quote_all_term ascii_lower (str_of_string "  ") = [].
Proof. split_and!; vm_compute; reflexivity. Qed.

Example build_search_query_examples :
  build_search_query ascii_lower
    {| query_terms := [str_of_string "llm"; str_of_string " "; str_of_string "ti:agents"];
       categories := [str_of_string "cs.CL"; str_of_string "cs.AI"] |}
  = Ok (str_of_string "(all:" ++ [quote] ++ str_of_string "llm" ++ [quote]
        ++ str_of_string " OR ti:agents) AND (cat:cs.CL OR cat:cs.AI)") /\
  build_search_query ascii_lower
    {| query_terms := [str_of_string " "]; categories := [[]] |}
  = Raise ValueError.
Proof. split; vm_compute; reflexivity. Qed.

End Query.
